(** * go-etherutils: the Wei/Ether conversion engine of [conversion.go]

    A shallow embedding of [StringToWei], [WeiToString], [decimalStringToWei],
    [integerStringToWei] and [UnitToMultiplier], together with the parts of
    Go's [strings] and [math/big] packages they call, and the properties the
    specification states about them.  The [ens] package follows: the name
    hash, the sealing of a bid, the states of a name at the registrar and
    the resolution of a name, with the contract calls and the Keccak-256
    digest as parameters of the sections that use them.

    Conventions.
    - A Go [string] is a sequence of bytes: Rocq's [string] (a list of 8-bit
      [ascii]).  [len] is the byte length.
    - A Go [int] is modelled by [Z]; the lengths and tier counters handled
      here stay far below 2^63.
    - A [*big.Int] value is a [Z].  Where the source mutates the big integer
      a pointer refers to, the function returns the new content of that
      object next to its result.
    - A Go result [(v, error)] is an [outcome]: [Ok v], [Err msg] carrying the
      text given to [errors.New], or [Panic] for a run-time panic (nil
      dereference, index out of range). *)

From Stdlib Require Import ZArith String Ascii List Bool Lia.
Import ListNotations.

Local Open Scope string_scope.
Local Open Scope Z_scope.

(** ** Results of fallible Go functions *)

Inductive outcome (A : Type) : Type :=
| Ok (a : A)
| Err (msg : string)
| Panic.

Arguments Ok {A} a.
Arguments Err {A} msg.
Arguments Panic {A}.

Definition bind {A B : Type} (m : outcome A) (k : A -> outcome B) : outcome B :=
  match m with
  | Ok a => k a
  | Err msg => Err msg
  | Panic => Panic
  end.

Notation "x <- m ;; k" := (bind m (fun x => k))
  (at level 61, m at next level, right associativity).

Definition is_err {A : Type} (m : outcome A) : bool :=
  match m with Err _ => true | _ => false end.

(** ** Package [strings] *)

Module strings.

(** [len(s)] of a string and of a slice of strings *)
Definition len (s : string) : Z := Z.of_nat (String.length s).

Definition len_list (l : list string) : Z := Z.of_nat (List.length l).

(** [strings.Contains(s, sep)] for a one-byte [sep]; the source only ever
    searches for [" "] and ["."]. *)
Fixpoint Contains (s : string) (sep : ascii) : bool :=
  match s with
  | EmptyString => false
  | String c s' => (c =? sep)%char || Contains s' sep
  end.

(** [strings.Split(s, sep)] for a one-byte [sep]: the pieces between the
    occurrences of [sep]; a string without [sep] is its own single piece. *)
Fixpoint Split (s : string) (sep : ascii) : list string :=
  match s with
  | EmptyString => [EmptyString]
  | String c s' =>
      if (c =? sep)%char then EmptyString :: Split s' sep
      else match Split s' sep with
           | piece :: rest => String c piece :: rest
           | [] => [String c EmptyString]
           end
  end.

(** [strings.TrimRight(s, cutset)] for a one-byte [cutset]. *)
Fixpoint TrimRight (s : string) (cutset : ascii) : string :=
  match s with
  | EmptyString => EmptyString
  | String c s' =>
      match TrimRight s' cutset with
      | EmptyString => if (c =? cutset)%char then EmptyString else String c EmptyString
      | t => String c t
      end
  end.

(** [strings.Repeat(s, count)]; the source never passes a negative count. *)
Fixpoint Repeat_nat (s : string) (count : nat) : string :=
  match count with
  | O => EmptyString
  | S n => s ++ Repeat_nat s n
  end.

Definition Repeat (s : string) (count : Z) : string :=
  Repeat_nat s (Z.to_nat count).

(** [strings.ToLower] on the ASCII range: [A]..[Z] become [a]..[z], every
    other byte is kept.  (Go also folds the letters beyond ASCII; the
    general statements about [UnitToMultiplier] below go through
    [ToLower unit] without looking into it.) *)
Definition lower_byte (c : ascii) : ascii :=
  let n := nat_of_ascii c in
  if ((65 <=? n) && (n <=? 90))%nat then ascii_of_nat (n + 32) else c.

Fixpoint ToLower (s : string) : string :=
  match s with
  | EmptyString => EmptyString
  | String c s' => String (lower_byte c) (ToLower s')
  end.

(** The slices [s[:i]] and [s[i:]] for [0 <= i <= len(s)]. *)
Definition slice_to (s : string) (i : Z) : string :=
  substring 0 (Z.to_nat i) s.

Definition slice_from (s : string) (i : Z) : string :=
  substring (Z.to_nat i) (String.length s - Z.to_nat i) s.

End strings.

(** ** Package [math/big]: the [Int] operations the source uses *)

Module big.

(** Value of a byte as a digit, as [nat.scan] computes it for a base of at
    most 36: decimal digits, then letters of either case from 10 on; any
    other byte gets a value beyond every base. *)
Definition digit_val (ch : ascii) : Z :=
  let n := Z.of_nat (nat_of_ascii ch) in
  if (48 <=? n) && (n <=? 57) then n - 48
  else if (97 <=? n) && (n <=? 122) then n - 97 + 10
  else if (65 <=? n) && (n <=? 90) then n - 65 + 10
  else 63.

(** What [nat.scan] remembers of the byte read before: a digit, a separator
    [_], or anything else. *)
Inductive prev_kind := PrevDigit | PrevSep | PrevOther.

Definition is_sep (p : prev_kind) : bool :=
  match p with PrevSep => true | _ => false end.

Definition is_digit_kind (p : prev_kind) : bool :=
  match p with PrevDigit => true | _ => false end.

Record scan_state := mkScan {
  sc_val : Z;            (* the digits read so far, as a number *)
  sc_count : Z;          (* how many digits were read *)
  sc_prev : prev_kind;
  sc_invalSep : bool;
  sc_rest : string       (* what is left unread *)
}.

(** The digit loop of [nat.scan] ([fracOk] is false for an [Int]): digits
    of base [b] are accumulated, [_] is skipped when the caller asked for
    base 0, and the first other byte is pushed back and ends the loop. *)
Fixpoint scan_loop (b : Z) (base0 : bool) (s : string)
         (val count : Z) (prev : prev_kind) (invalSep : bool) : scan_state :=
  match s with
  | EmptyString => mkScan val count prev invalSep EmptyString
  | String ch s' =>
      if (ch =? "_")%char && base0 then
        scan_loop b base0 s' val count PrevSep
                  (invalSep || negb (is_digit_kind prev))
      else
        let d1 := digit_val ch in
        if d1 >=? b then mkScan val count prev invalSep s
        else scan_loop b base0 s' (val * b + d1) (count + 1) PrevDigit invalSep
  end.

(** The base prefix recognised when the caller asked for base 0. *)
Inductive prefix_kind := NoPrefix | Prefix0 | PrefixB | PrefixO | PrefixX.

(** [nat.scan]: the number read, whether scanning failed, and the unread
    rest.  With [base = 0] the actual base is 10 unless the text starts
    with [0b], [0o], [0x] (2, 8, 16) or with a plain [0] (8). *)
Definition nat_scan (s : string) (base : Z) : Z * bool * string :=
  let finish (prefix : prefix_kind) (st : scan_state) : Z * bool * string :=
    let errSep := sc_invalSep st || is_sep (sc_prev st) in
    if sc_count st =? 0 then
      match prefix with
      | Prefix0 => (0, errSep, sc_rest st)
      | _ => (0, true, sc_rest st)
      end
    else (sc_val st, errSep, sc_rest st) in
  if base =? 0 then
    match s with
    | EmptyString => finish NoPrefix (scan_loop 10 true s 0 0 PrevOther false)
    | String c rest =>
        if (c =? "0")%char then
          match rest with
          | EmptyString => (0, false, EmptyString)
          | String ch s' =>
              if (ch =? "b")%char || (ch =? "B")%char then
                finish PrefixB (scan_loop 2 true s' 0 0 PrevDigit false)
              else if (ch =? "o")%char || (ch =? "O")%char then
                finish PrefixO (scan_loop 8 true s' 0 0 PrevDigit false)
              else if (ch =? "x")%char || (ch =? "X")%char then
                finish PrefixX (scan_loop 16 true s' 0 0 PrevDigit false)
              else
                finish Prefix0 (scan_loop 8 true rest 0 0 PrevDigit false)
          end
        else finish NoPrefix (scan_loop 10 true s 0 0 PrevOther false)
    end
  else finish NoPrefix (scan_loop base false s 0 0 PrevOther false).

(** [z.SetString(s, base)] on a receiver that is still zero, which is the
    case at every call of the source: the content of the receiver after
    the call, and the success flag.  An optional sign is read first; the
    call succeeds when [nat.scan] does and nothing is left unread.  On
    failure the receiver keeps what was scanned before the failure (no
    sign is recorded when [nat.scan] itself fails). *)
Definition SetString (s : string) (base : Z) : Z * bool :=
  match s with
  | EmptyString => (0, false)
  | String ch s' =>
      let neg := (ch =? "-")%char in
      let body := if neg || (ch =? "+")%char then s' else s in
      match nat_scan body base with
      | (abs, true, _) => (abs, false)
      | (abs, false, rest) =>
          let v := if neg then - abs else abs in
          match rest with
          | EmptyString => (v, true)
          | _ => (v, false)
          end
      end
  end.

(** The byte of a decimal digit. *)
Definition digit_char (d : Z) : ascii := ascii_of_nat (Z.to_nat (48 + d)).

(** The decimal digits of [n] in front of [acc], one digit per step, the
    least significant first. *)
Fixpoint digits (fuel : nat) (n : Z) (acc : string) : string :=
  match fuel with
  | O => acc
  | S fuel' =>
      let acc' := String (digit_char (n mod 10)) acc in
      if n <? 10 then acc' else digits fuel' (n / 10) acc'
  end.

(** [x.Text(10)]: the decimal digits, most significant first, after a [-]
    for a negative number.  A number has at most [log2 |x| + 1] digits,
    see [digits_spec]. *)
Definition Text10 (x : Z) : string :=
  let abs := Z.abs x in
  let ds := digits (S (Z.to_nat (Z.log2 abs))) abs EmptyString in
  if x <? 0 then String "-" ds else ds.

End big.

(** ** Package [etherutils]: [conversion.go] *)

Definition zero : Z := 0.
Definition thousand : Z := 1000.
Definition million : Z := 1000000.

(** Metric units *)
Definition metricUnits : list string :=
  ["Wei"; "KWei"; "MWei"; "GWei"; "Microether"; "Milliether"; "Ether";
   "Kiloether"; "Megaether"; "Gigaether"; "Teraether"].

(** [metricUnits[i]]: indexing the array outside [0..10] panics. *)
Definition metricUnits_at (i : Z) : outcome string :=
  if (0 <=? i) && (i <? strings.len_list metricUnits) then
    match nth_error metricUnits (Z.to_nat i) with
    | Some label => Ok label
    | None => Panic
    end
  else Panic.

(** One [case] of the switch in [UnitToMultiplier]. *)
Definition case_of (u : string) (labels : list string) : bool :=
  existsb (String.eqb u) labels.

(** [result.SetString(lit, 10)] on the fresh [result] of [UnitToMultiplier]. *)
Definition set_lit (lit : string) : Z := fst (big.SetString lit 10).

(** Take an Ethereum unit and return the relevant multiplier from Wei. *)
Definition UnitToMultiplier (unit : string) : outcome Z :=
  let u := strings.ToLower unit in
  if case_of u [EmptyString; "wei"] then Ok (set_lit "1")
  else if case_of u ["ada"; "kwei"; "kilowei"] then Ok (set_lit "1000")
  else if case_of u ["babbage"; "mwei"; "megawei"] then Ok (set_lit "1000000")
  else if case_of u ["shannon"; "gwei"; "gigawei"] then Ok (set_lit "1000000000")
  else if case_of u ["szazbo"; "micro"; "microether"] then
    Ok (set_lit "1000000000000")
  else if case_of u ["finney"; "milli"; "milliether"] then
    Ok (set_lit "1000000000000000")
  else if case_of u ["ether"] then Ok (set_lit "1000000000000000000")
  else if case_of u ["einstein"; "kilo"; "kiloether"] then
    Ok (set_lit "1000000000000000000000")
  else if case_of u ["mega"; "megaether"] then
    Ok (set_lit "1000000000000000000000000")
  else if case_of u ["giga"; "gigaether"] then
    Ok (set_lit "1000000000000000000000000000")
  else if case_of u ["tera"; "teraether"] then
    Ok (set_lit "1000000000000000000000000000000")
  else Err ("Unknown unit " ++ unit).

(** [integerStringToWei(amount, unit, result)]: [Ok r] stands for a nil error
    with [r] the content of [*result] after the call. *)
Definition integerStringToWei (amount unit : string) (result : Z) : outcome Z :=
  let (number, success) := big.SetString amount 10 in
  if negb success then
    Err ("Failed to parse numeric value of " ++ amount ++ " " ++ unit)
  else
    match UnitToMultiplier unit with
    | Ok multiplier => Ok (number * multiplier)
    | Err _ => Err ("Failed to parse unit of " ++ amount ++ " " ++ unit)
    | Panic => Panic
    end.

(** The loop [for i := 0; i < len(trimmedDecimal); i++] of
    [decimalStringToWei], dividing [multiplier] by [div] = 10 each time. *)
Fixpoint div_loop (n : nat) (multiplier : Z) : Z :=
  match n with
  | O => multiplier
  | S n' => div_loop n' (multiplier / 10)
  end.

(** [decimalStringToWei(amount, unit, result)].  The error of the second
    [UnitToMultiplier] call is dropped by the source, which leaves a nil
    [multiplier] for an unknown unit: dividing it panics. *)
Definition decimalStringToWei (amount unit : string) (result : Z) : outcome Z :=
  match strings.Split amount "." with
  | parts0 :: parts1 :: _ =>
      result <-
        (if negb (parts0 =? EmptyString)%string then
           match integerStringToWei parts0 unit result with
           | Ok r => Ok r
           | Err _ => Err ("Failed to parse " ++ amount ++ " " ++ unit)
           | Panic => Panic
           end
         else Ok result) ;;
      let multiplier : option Z :=
        match UnitToMultiplier unit with
        | Ok m => Some m
        | _ => None
        end in
      let trimmedDecimal := strings.TrimRight parts1 "0" in
      if strings.len trimmedDecimal =? 0 then Ok result
      else
        let decVal := fst (big.SetString trimmedDecimal 0) in
        match multiplier with
        | None => Panic
        | Some multiplier =>
            let multiplier := div_loop (String.length trimmedDecimal) multiplier in
            if Z.sgn multiplier =? 0 then
              Err "Value resulted in fractional number of Wei"
            else
              let decResult := multiplier * decVal in
              Ok (result + decResult)
        end
  | _ => Panic
  end.

(** Turn a string in to number of Wei. *)
Definition StringToWei (input : string) : outcome Z :=
  if (input =? EmptyString)%string then Err "Failed to parse empty value"
  else
    result <-
      (if strings.Contains input " " then
         let s := strings.Split input " " in
         if negb (strings.len_list s =? 2) then Err ("Unknown format of " ++ input)
         else
           match s with
           | s0 :: s1 :: _ =>
               if strings.Contains s0 "." then decimalStringToWei s0 s1 0
               else integerStringToWei s0 s1 0
           | _ => Panic
           end
       else Ok (fst (big.SetString input 10))) ;;
    if result <? 0 then Err "Value resulted in negative number of Wei"
    else Ok result.

(** The two big integers [WeiToString] writes to: the one its argument
    [input] points to, which belongs to the caller, and its own [modInt]. *)
Record big_ints := mkInts { at_input : Z; at_modInt : Z }.

(** Step 1 of [WeiToString]: step down whole thousands.
    [modInt.Mod(input, thousand)] stores the remainder into [modInt];
    [input.Div(input, thousand)] stores the quotient into the integer
    [input] points to; [modInt.Set(input)] copies it into [modInt].
    The loop runs at most [log2 input] times, see [step_down_done] and
    [step_down_step_down_value]. *)
Fixpoint step_down (fuel : nat) (ints : big_ints) (postfixPos : Z)
  : big_ints * Z :=
  match fuel with
  | O => (ints, postfixPos)
  | S fuel' =>
      if at_input ints >=? thousand then
        let ints := mkInts (at_input ints) (at_input ints mod thousand) in
        if at_modInt ints =? zero then
          let postfixPos := postfixPos + 1 in
          let ints := mkInts (at_input ints / thousand) (at_modInt ints) in
          let ints := mkInts (at_input ints) (at_input ints) in
          step_down fuel' ints postfixPos
        else (ints, postfixPos)
      else (ints, postfixPos)
  end.

(** [for postfixPos < desiredPostfixPos], run [n] times. *)
Fixpoint shift_up (n : nat) (decimalPlace postfixPos : Z) : Z * Z :=
  match n with
  | O => (decimalPlace, postfixPos)
  | S n' => shift_up n' (decimalPlace - 3) (postfixPos + 1)
  end.

(** [for postfixPos > desiredPostfixPos], run [n] times. *)
Fixpoint shift_down (n : nat) (outputValue : string) (decimalPlace postfixPos : Z)
  : string * Z * Z :=
  match n with
  | O => (outputValue, decimalPlace, postfixPos)
  | S n' =>
      shift_down n' (outputValue ++ strings.Repeat "0" 3) (decimalPlace + 3)
                 (postfixPos - 1)
  end.

(** Step 2 of [WeiToString]: the digits of the reduced [input] with the
    decimal point placed, and the final tier. *)
Definition place_decimal (input postfixPos : Z) (standard : bool) : string * Z :=
  let outputValue := big.Text10 input in
  let desiredPostfixPos := postfixPos in
  let desiredPostfixPos :=
    if strings.len outputValue >? 3 then
      let d := desiredPostfixPos + strings.len outputValue / 3 in
      if strings.len outputValue mod 3 =? 0 then d - 1 else d
    else desiredPostfixPos in
  let decimalPlace := strings.len outputValue in
  let desiredPostfixPos :=
    if (desiredPostfixPos >? 3) && standard then 6 else desiredPostfixPos in
  let '(decimalPlace, postfixPos) :=
    shift_up (Z.to_nat (desiredPostfixPos - postfixPos)) decimalPlace postfixPos in
  let '(outputValue, decimalPlace, postfixPos) :=
    shift_down (Z.to_nat (postfixPos - desiredPostfixPos))
               outputValue decimalPlace postfixPos in
  let outputValue :=
    if decimalPlace <=? 0 then
      "0." ++ strings.Repeat "0" (0 - decimalPlace) ++ outputValue
    else if decimalPlace <? strings.len outputValue then
      strings.slice_to outputValue decimalPlace ++ "."
        ++ strings.slice_from outputValue decimalPlace
    else outputValue in
  let outputValue :=
    if strings.Contains outputValue "." then strings.TrimRight outputValue "0"
    else outputValue in
  (outputValue, postfixPos).

(** [WeiToString] up to its [return]: the content of the caller's big
    integer, the digits with the decimal point placed, and the final tier.
    [modInt := new(big.Int).Set(input)] starts as a copy of the input. *)
Definition WeiToString_layout (input : Z) (standard : bool) : Z * string * Z :=
  let '(ints, postfixPos) :=
    step_down (Z.to_nat (Z.log2 input)) (mkInts input input) 0 in
  let '(outputValue, postfixPos) :=
    place_decimal (at_input ints) postfixPos standard in
  (at_input ints, outputValue, postfixPos).

(** Turn a number of Wei in to a string.  The first component is the content
    of the caller's big integer when the function returns; the second is
    [fmt.Sprintf("%s %s", outputValue, metricUnits[postfixPos]), nil]. *)
Definition WeiToString (input : Z) (standard : bool) : Z * outcome string :=
  let '(input, outputValue, postfixPos) := WeiToString_layout input standard in
  (input,
   unit <- metricUnits_at postfixPos ;; Ok (outputValue ++ " " ++ unit)).

(** [format] and [parse] of the specification: the results of the two public
    functions. *)
Definition format (amount : Z) (standard : bool) : outcome string :=
  snd (WeiToString amount standard).

Definition parse (input : string) : outcome Z := StringToWei input.

(** ** Package [math/big]: [Bytes] *)

(** The bytes of [n] in front of [acc], one byte per step, the least
    significant first. *)
Fixpoint Bytes_loop (fuel : nat) (n : Z) (acc : string) : string :=
  match fuel with
  | O => acc
  | S fuel' =>
      if n =? 0 then acc
      else Bytes_loop fuel' (n / 256)
                      (String (ascii_of_nat (Z.to_nat (n mod 256))) acc)
  end.

(** [x.Bytes()]: the absolute value of [x] as a big-endian byte slice,
    without leading zero bytes (empty for 0).  A number has at most
    [log2 |x| + 1] bytes, see [Int_Bytes_spec]. *)
Definition Int_Bytes (x : Z) : string :=
  Bytes_loop (S (Z.to_nat (Z.log2 (Z.abs x)))) (Z.abs x) EmptyString.

(** [x.Int64()]: the low 64 bits of the absolute value as a signed integer,
    negated for a negative [x]. *)
Definition wrap64 (v : Z) : Z := (v + 2 ^ 63) mod 2 ^ 64 - 2 ^ 63.

Definition Int_Int64 (x : Z) : Z :=
  let v := wrap64 (Z.abs x mod 2 ^ 64) in
  if x <? 0 then wrap64 (- v) else v.

(** ** Package [ens]: name hashes, the registrar and the resolver *)

(** The answer of a call that returns [(v, error)] and belongs to code that
    is not part of these files: the value with a nil error, or the error. *)
Inductive reply (A : Type) : Type :=
| Reply (a : A)
| Fault (err : string).

Arguments Reply {A} a.
Arguments Fault {A} err.

Module ens.

(** A zeroed byte array of [n] bytes. *)
Definition zero_bytes (n : nat) : string :=
  strings.Repeat_nat (String Ascii.zero EmptyString) n.

(** [var zeroHash = make([]byte, 32)], also the zero value of a [[32]byte]. *)
Definition zeroHash : string := zero_bytes 32.

(** [var zeroAddress = common.HexToAddress("00")], also the zero value of a
    [common.Address]: twenty zero bytes. *)
Definition zeroAddress : string := zero_bytes 20.

Section hashing.

(** The Keccak-256 digest of the bytes written: [sha3.NewKeccak256()],
    [Write] any number of times, [Sum]. *)
Variable Keccak256 : string -> string.

(** [nameHashPart]: the digest of the current hash followed by the digest of
    the label. *)
Definition nameHashPart (currentHash name : string) : string :=
  let nameHash := Keccak256 name in
  Keccak256 (currentHash ++ nameHash).

(** The loop of [EnsNameHash], [for i := len(parts) - 1; i >= 0; i--], with
    [n] iterations to go: the next index is [n - 1]. *)
Fixpoint EnsNameHash_loop (parts : list string) (n : nat) (hash : string)
  : string :=
  match n with
  | O => hash
  | S i => EnsNameHash_loop parts i (nameHashPart hash (nth i parts EmptyString))
  end.

(** Generate an ENS name hash for a name *)
Definition EnsNameHash (name : string) : string :=
  let hash := zeroHash in
  if negb (name =? EmptyString)%string then
    let parts := strings.Split name "." in
    EnsNameHash_loop parts (List.length parts) hash
  else hash.

(** Generate a simple hash for a salt *)
Definition saltHash (salt : string) : string := Keccak256 salt.

(** [Domain] and [LabelHash] of the package, which these files call and do
    not contain. *)
Variable Domain : string -> reply string.
Variable LabelHash : string -> string.

(** The 32 bytes [SealBid] writes for the amount:
    [copy(amountBytes[len(amountBytes)-len(amount.Bytes()):], amount.Bytes()[:])].
    A negative lower bound of the slice is a run-time panic. *)
Definition amountBytes (amount : Z) : outcome string :=
  let bytes := Int_Bytes amount in
  let low := 32 - strings.len bytes in
  if low <? 0 then Panic
  else Ok (strings.slice_to (zero_bytes 32) low ++ bytes).

(** SealBid seals the elements of a bid in to a single hash.  [owner] is
    the content of [owner.Bytes()]. *)
Definition SealBid (name owner : string) (amount : Z) (salt : string)
  : outcome string :=
  match Domain name with
  | Fault _ => Err "invalid name"
  | Reply domain =>
      let domainHash := LabelHash domain in
      amountBytes <- amountBytes amount ;;
      let saltHash := saltHash salt in
      Ok (Keccak256 (domainHash ++ owner ++ amountBytes ++ saltHash))
  end.

End hashing.

Section registrar.

(** The calls [Entry], [State], [NameInState] and [RegistrarContract] make
    outside these files. *)
Variable Domain : string -> reply string.
Variable LabelHash : string -> string.
Variable NameHash : string -> string.
Variable UnknownAddress : string.

(** What [contract.Entries(nil, hash)] returns. *)
Record entries := mkEntries {
  e_status : Z;
  e_deedAddress : string;
  e_registration : Z;
  e_value : option Z;
  e_highestBid : option Z;
  e_err : option string
}.

Variable Entries : string -> entries.

(** A registry contract, [RegistryContractFromRegistrar(client, contract)]
    and [registryContract.Owner(nil, hash)]. *)
Variable registry : Type.
Variable RegistryContractFromRegistrar : reply registry.
Variable Owner : registry -> string -> reply string.

(** The six results of [Entry]; [None] is a nil pointer, and the zero
    [time.Time] for the date. *)
Record entry := mkEntry {
  state : string;
  deedAddress : string;
  registrationDate : option Z;
  value : option Z;
  highestBid : option Z;
  err : option string
}.

(** Entry obtains a registrar entry for a name *)
Definition Entry (name : string) : entry :=
  match Domain name with
  | Fault _ =>
      mkEntry EmptyString zeroAddress None None None (Some "invalid name")
  | Reply domain =>
      let r := Entries (LabelHash domain) in
      let result (state : string) (date : option Z) (err : option string) :=
        mkEntry state (e_deedAddress r) date (e_value r) (e_highestBid r) err in
      match e_err r with
      | Some err => result EmptyString None (Some err)
      | None =>
          let registrationDate := Some (Int_Int64 (e_registration r)) in
          let status := e_status r in
          if status =? 0 then result "Available" registrationDate None
          else if status =? 1 then result "Bidding" registrationDate None
          else if status =? 2 then
            match RegistryContractFromRegistrar with
            | Fault err => result EmptyString registrationDate (Some err)
            | Reply registryContract =>
                match Owner registryContract (NameHash name) with
                | Fault err => result EmptyString registrationDate (Some err)
                | Reply owner =>
                    if (owner =? UnknownAddress)%string
                    then result "Won" registrationDate None
                    else result "Owned" registrationDate None
                end
            end
          else if status =? 3 then result "Forbidden" registrationDate None
          else if status =? 4 then result "Revealing" registrationDate None
          else if status =? 5 then result "Unavailable" registrationDate None
          else result "Unknown" registrationDate None
      end
  end.

(** State obains the current state of a name *)
Definition State (name : string) : string * option string :=
  let e := Entry name in (state e, err e).

(** NameInState checks if a name is in a given state, and errors if not. *)
Definition NameInState (name desiredState : string) : bool * option string :=
  let '(state, err) := State name in
  match err with
  | Some err => (false, Some err)
  | None =>
      if (state =? desiredState)%string then (true, None)
      else if (state =? "Available")%string then
        (false, Some "this name has not been auctioned")
      else if (state =? "Bidding")%string then
        (false, Some "this name is being auctioned")
      else if (state =? "Won")%string then
        (false, Some "this name's auction has finished")
      else if (state =? "Owned")%string then
        (false, Some "this name is owned")
      else if (state =? "Forbidden")%string then
        (false, Some "this name is unavailable")
      else if (state =? "Revealing")%string then
        (false, Some "this name is being revealed")
      else if (state =? "Unavailable")%string then
        (false, Some "this name is not yet available")
      else (false, Some "this name is in an unknown state")
  end.

(** The calls of [RegistrarContract]: [client.NetworkID(ctx)],
    [RegistryContract(client)], [registry.Owner(nil, hash)] and
    [registrarcontract.NewRegistrarContract(address, client)]. *)
Variable network : Type.
Variable registrarContract : Type.
Variable NetworkID : reply network.
Variable RegistryContract : reply registry.
Variable NewRegistrarContract :
  string -> option registrarContract * option string.

(** RegistrarContract obtains the registrar contract for a chain.  The
    error stored for an unknown registrar address is followed by the
    assignment of both results from [NewRegistrarContract]. *)
Definition RegistrarContract : option registrarContract * option string :=
  match NetworkID with
  | Fault err => (None, Some err)
  | Reply _ =>
      match RegistryContract with
      | Fault err => (None, Some err)
      | Reply registry =>
          match Owner registry (NameHash "eth") with
          | Fault err => (None, Some err)
          | Reply registrarAddress =>
              let err :=
                if (registrarAddress =? UnknownAddress)%string
                then Some "no registrar for that network" else None in
              let '(registrar, err) := NewRegistrarContract registrarAddress in
              (registrar, err)
          end
      end
  end.

End registrar.

Section resolver.

(** The calls of [Resolve] and [resolveHash]: [NameHash] of the package,
    the ENS contract at its fixed address with [Owner] and [Resolver], and
    the resolver contract with [Addr]. *)
Variable NameHash : string -> string.
Variable enscontract : Type.
Variable resolvercontract : Type.
Variable NewEnscontract : reply enscontract.
Variable Owner : enscontract -> string -> reply string.
Variable Resolver : enscontract -> string -> reply string.
Variable NewResolvercontract : string -> reply resolvercontract.
Variable Addr : resolvercontract -> string -> reply string.

(** [resolveHash]: the address and the error it returns. *)
Definition resolveHash (nameHash : string) : string * option string :=
  match NewEnscontract with
  | Fault err => (zeroAddress, Some err)
  | Reply ens =>
      match Owner ens nameHash with
      | Fault err => (zeroAddress, Some err)
      | Reply ownerAddress =>
          if (ownerAddress =? zeroAddress)%string then
            (zeroAddress, Some "unregistered name")
          else
            match Resolver ens nameHash with
            | Fault err => (zeroAddress, Some err)
            | Reply resolverAddress =>
                if (resolverAddress =? zeroAddress)%string then
                  (zeroAddress, Some "no resolver")
                else
                  match NewResolvercontract resolverAddress with
                  | Fault err => (zeroAddress, Some err)
                  | Reply resolver =>
                      match Addr resolver nameHash with
                      | Fault err => (zeroAddress, Some err)
                      | Reply address =>
                          if (address =? zeroAddress)%string then
                            (zeroAddress, Some "no address")
                          else (address, None)
                      end
                  end
            end
      end
  end.

(** Resolve resolves an ENS name in to an Etheruem address *)
Definition Resolve (name : string) : string * option string :=
  let nameHash := NameHash name in
  if (nameHash =? zeroHash)%string then (zeroAddress, Some "Bad name")
  else resolveHash nameHash.

End resolver.

End ens.

(** * Vocabulary of the properties *)

(** ** The unit table of the specification *)

(** Tier of each alias, in the order of the switch: the multiplier of an
    alias of tier [k] is [10^(3k)]. *)
Definition UnitTable : list (string * Z) :=
  [(EmptyString, 0); ("wei", 0);
   ("ada", 1); ("kwei", 1); ("kilowei", 1);
   ("babbage", 2); ("mwei", 2); ("megawei", 2);
   ("shannon", 3); ("gwei", 3); ("gigawei", 3);
   ("szazbo", 4); ("micro", 4); ("microether", 4);
   ("finney", 5); ("milli", 5); ("milliether", 5);
   ("ether", 6);
   ("einstein", 7); ("kilo", 7); ("kiloether", 7);
   ("mega", 8); ("megaether", 8);
   ("giga", 9); ("gigaether", 9);
   ("tera", 10); ("teraether", 10)].

Fixpoint tier_of (alias : string) (table : list (string * Z)) : option Z :=
  match table with
  | [] => None
  | (a, k) :: table' => if (alias =? a)%string then Some k else tier_of alias table'
  end.

(** [multiplierFor] of the specification: an exact, case-insensitive match
    of the unit name against the aliases of [UnitTable]. *)
Definition multiplierFor (unitName : string) : outcome Z :=
  match tier_of (strings.ToLower unitName) UnitTable with
  | Some k => Ok (10 ^ (3 * k))
  | None => Err ("Unknown unit " ++ unitName)
  end.

(** ** Decimal digits and the input grammar *)

(** The bytes [0] to [9], and the strings made of them only. *)
Definition is_digit (c : ascii) : bool :=
  let n := Z.of_nat (nat_of_ascii c) in (48 <=? n) && (n <=? 57).

Fixpoint all_digits (s : string) : bool :=
  match s with
  | EmptyString => true
  | String c s' => is_digit c && all_digits s'
  end.

(** The number a run of decimal digits denotes when it continues [val]. *)
Fixpoint scan_val (val : Z) (s : string) : Z :=
  match s with
  | EmptyString => val
  | String c s' => scan_val (val * 10 + big.digit_val c) s'
  end.

(** The numbers of the input grammar of the specification:
    [INTEGER = [0-9]+] and [DECIMAL = [0-9]*"."[0-9]+]. *)
Definition INTEGER (s : string) : bool :=
  negb (s =? EmptyString)%string && all_digits s.

Definition DECIMAL (s : string) : bool :=
  match strings.Split s "." with
  | [intPart; frac] => all_digits intPart && INTEGER frac
  | _ => false
  end.

Definition valid_number (s : string) : bool := INTEGER s || DECIMAL s.

(** [INTEGER] with the optional sign [SetString] accepts in front of it. *)
Definition signed_digits (s : string) : bool :=
  match s with
  | EmptyString => false
  | String c s' =>
      if (c =? "-")%char || (c =? "+")%char then
        negb (s' =? EmptyString)%string && all_digits s'
      else all_digits s
  end.

(** ** Tiers, clean multiples and the round trip *)

(** Step 1 seen from the caller's big integer alone. *)
Fixpoint step_down_value (fuel : nat) (input postfixPos : Z) : Z * Z :=
  match fuel with
  | O => (input, postfixPos)
  | S fuel' =>
      if (input >=? thousand) && (input mod thousand =? zero) then
        step_down_value fuel' (input / thousand) (postfixPos + 1)
      else (input, postfixPos)
  end.

(** The tier the formatter aims at: the tier reached by step 1, raised by
    the groups of three digits beyond the first, and sent to 6 in standard
    mode when it would exceed 3. *)
Definition desired_tier (postfixPos digits : Z) (standard : bool) : Z :=
  let d :=
    if digits >? 3 then
      let d := postfixPos + digits / 3 in
      if digits mod 3 =? 0 then d - 1 else d
    else postfixPos in
  if (d >? 3) && standard then 6 else d.

(** An amount reached by exact tier reduction: step 1 alone brings it below
    a thousand, so that it is shown as a whole number of one unit. *)
Definition clean_multiple (amount : Z) : Prop :=
  exists m p, 0 <= m < 1000 /\ 0 <= p /\ amount = m * 1000 ^ p.

(** Whether the text after the first decimal point of [s] starts with 0. *)
Definition fraction_starts_with_zero (s : string) : bool :=
  match strings.Split s "." with
  | _ :: String c _ :: _ => (c =? "0")%char
  | _ => false
  end.

(** [parse(format(amount, false))] *)
Definition roundtrip (amount : Z) : outcome Z :=
  s <- format amount false ;; parse s.

(** ** Further vocabulary *)

(** How many times the byte [c] occurs in [s]. *)
Fixpoint count_byte (c : ascii) (s : string) : nat :=
  match s with
  | EmptyString => O
  | String d s' => ((if (d =? c)%char then 1 else 0) + count_byte c s')%nat
  end.

(** The number a big-endian run of bytes denotes when it continues [val]. *)
Fixpoint be_val (val : Z) (s : string) : Z :=
  match s with
  | EmptyString => val
  | String c s' => be_val (val * 256 + Z.of_nat (nat_of_ascii c)) s'
  end.

(** * Supporting lemmas *)

(** ** Strings *)

Lemma append_nil_r (s : string) : s ++ EmptyString = s.
Proof. induction s as [|c s IH]; cbn; [reflexivity|now rewrite IH]. Qed.

Lemma append_assoc (s t u : string) : (s ++ t) ++ u = s ++ (t ++ u).
Proof. induction s as [|c s IH]; cbn; [reflexivity|now rewrite IH]. Qed.

Lemma length_append (s t : string) :
  String.length (s ++ t) = (String.length s + String.length t)%nat.
Proof. induction s as [|c s IH]; cbn; [reflexivity|now rewrite IH]. Qed.

Lemma append_not_empty (s t : string) (c : ascii) :
  (s ++ String c t =? EmptyString)%string = false.
Proof. destruct s; reflexivity. Qed.

Lemma Contains_append (s t : string) (sep : ascii) :
  strings.Contains (s ++ t) sep = strings.Contains s sep || strings.Contains t sep.
Proof.
  induction s as [|c s IH]; cbn; [reflexivity|].
  now rewrite IH, orb_assoc.
Qed.

Lemma Split_no_sep (s : string) (sep : ascii) :
  strings.Contains s sep = false -> strings.Split s sep = [s].
Proof.
  induction s as [|c s IH]; cbn; [reflexivity|].
  intro H; apply orb_false_elim in H as [Hc Hs].
  now rewrite Hc, (IH Hs).
Qed.

Lemma Split_at_sep (s t : string) (sep : ascii) :
  strings.Contains s sep = false ->
  strings.Split (s ++ String sep t) sep = s :: strings.Split t sep.
Proof.
  induction s as [|c s IH]; cbn.
  - intros _; now rewrite Ascii.eqb_refl.
  - intro H; apply orb_false_elim in H as [Hc Hs].
    now rewrite Hc, (IH Hs).
Qed.

Lemma Split_cons (s : string) (sep : ascii) :
  exists piece rest, strings.Split s sep = piece :: rest.
Proof.
  induction s as [|c s (piece & rest & IH)]; cbn; [now eauto|].
  destruct (c =? sep)%char; [now eauto|].
  rewrite IH; eauto.
Qed.

(** ** Decimal digits *)

Lemma digit_val_digit (c : ascii) :
  is_digit c = true -> 0 <= big.digit_val c <= 9.
Proof.
  unfold is_digit, big.digit_val; cbv zeta.
  intro H; rewrite H.
  apply andb_prop in H as [H1 H2]; lia.
Qed.

Lemma digit_val_not_digit (c : ascii) :
  is_digit c = false -> 10 <= big.digit_val c.
Proof.
  unfold is_digit, big.digit_val; cbv zeta.
  intro H; rewrite H.
  repeat match goal with
         | |- context [if ?b then _ else _] => destruct b eqn:?
         end; lia.
Qed.

Lemma is_digit_not_sep (c : ascii) :
  is_digit c = true -> (c =? "_")%char = false.
Proof.
  intro H; apply Ascii.eqb_neq; intros ->; discriminate H.
Qed.

Lemma all_digits_append (s t : string) :
  all_digits (s ++ t) = all_digits s && all_digits t.
Proof.
  induction s as [|c s IH]; cbn; [reflexivity|].
  now rewrite IH, andb_assoc.
Qed.

Lemma scan_val_append (val : Z) (s t : string) :
  scan_val val (s ++ t) = scan_val (scan_val val s) t.
Proof.
  revert val; induction s as [|c s IH]; intro val; cbn; [reflexivity|apply IH].
Qed.

Lemma scan_val_shift (val : Z) (s : string) :
  scan_val val s = val * 10 ^ strings.len s + scan_val 0 s.
Proof.
  unfold strings.len.
  revert val; induction s as [|c s IH]; intro val.
  - cbn; lia.
  - cbn [scan_val String.length].
    rewrite IH, (IH (0 * 10 + big.digit_val c)).
    rewrite Nat2Z.inj_succ, Z.pow_succ_r by lia.
    ring.
Qed.

Lemma scan_val_nonneg (s : string) :
  all_digits s = true -> 0 <= scan_val 0 s.
Proof.
  intro Hdig.
  assert (H : forall v, 0 <= v -> 0 <= scan_val v s).
  { induction s as [|d s IH]; intros v Hv; cbn; [assumption|].
    cbn in Hdig; apply andb_prop in Hdig as [Hd Hs].
    pose proof (digit_val_digit _ Hd).
    apply IH; [assumption|lia]. }
  apply H; lia.
Qed.

Lemma all_digits_Contains (s : string) (sep : ascii) :
  all_digits s = true -> is_digit sep = false -> strings.Contains s sep = false.
Proof.
  intros Hs Hsep.
  induction s as [|c s IH]; cbn; [reflexivity|].
  cbn in Hs; apply andb_prop in Hs as [Hc Hs].
  rewrite (IH Hs), orb_false_r.
  apply Ascii.eqb_neq; intros ->; congruence.
Qed.

Lemma TrimRight_all_digits (s : string) (cutset : ascii) :
  all_digits s = true -> all_digits (strings.TrimRight s cutset) = true.
Proof.
  induction s as [|c s IH]; intro Hs; [reflexivity|].
  cbn in Hs; apply andb_prop in Hs as [Hc Hs].
  cbn [strings.TrimRight].
  specialize (IH Hs).
  destruct (strings.TrimRight s cutset) as [|d t].
  - destruct (c =? cutset)%char; cbn; [reflexivity|now rewrite Hc].
  - cbn [all_digits] in *. now rewrite Hc, IH.
Qed.

(** ** Slices and trimming *)

Lemma substring_all (s : string) : substring 0 (String.length s) s = s.
Proof. induction s as [|c s IH]; cbn; [reflexivity|now rewrite IH]. Qed.

Lemma slice_split (s : string) (i : nat) :
  (i <= String.length s)%nat ->
  substring 0 i s ++ substring i (String.length s - i) s = s /\
  String.length (substring 0 i s) = i.
Proof.
  revert i; induction s as [|c s IH]; intros i Hi.
  - cbn in Hi; assert (i = 0)%nat by lia; subst; split; reflexivity.
  - destruct i as [|i].
    + cbn [substring append String.length Nat.sub].
      rewrite substring_all; split; reflexivity.
    + cbn [String.length] in *.
      destruct (IH i ltac:(lia)) as [IH1 IH2].
      cbn [substring append String.length Nat.sub].
      rewrite IH1, IH2; split; reflexivity.
Qed.

Lemma slices (s : string) (i : Z) :
  0 <= i <= strings.len s ->
  strings.slice_to s i ++ strings.slice_from s i = s /\
  strings.len (strings.slice_to s i) = i.
Proof.
  unfold strings.len, strings.slice_to, strings.slice_from; intro Hi.
  destruct (slice_split s (Z.to_nat i) ltac:(lia)) as [H1 H2].
  split; [exact H1|rewrite H2; lia].
Qed.

Lemma TrimRight_cons (c : ascii) (s : string) (cutset : ascii) :
  strings.TrimRight (String c s) cutset
  = match strings.TrimRight s cutset with
    | EmptyString => if (c =? cutset)%char then EmptyString else String c EmptyString
    | t => String c t
    end.
Proof. reflexivity. Qed.

Lemma TrimRight_append (s t : string) (cutset : ascii) :
  strings.TrimRight t cutset <> EmptyString ->
  strings.TrimRight (s ++ t) cutset = s ++ strings.TrimRight t cutset.
Proof.
  intro Ht; induction s as [|c s IH]; [reflexivity|].
  cbn [append strings.TrimRight]; rewrite IH.
  destruct (s ++ strings.TrimRight t cutset) eqn:E; [|reflexivity].
  destruct s; cbn in E; [contradiction|discriminate].
Qed.

Lemma TrimRight_idem (s : string) (cutset : ascii) :
  strings.TrimRight (strings.TrimRight s cutset) cutset
  = strings.TrimRight s cutset.
Proof.
  induction s as [|c s IH]; [reflexivity|].
  cbn [strings.TrimRight].
  destruct (strings.TrimRight s cutset) as [|d t] eqn:E.
  - destruct (c =? cutset)%char eqn:Ec; [reflexivity|].
    cbn [strings.TrimRight]; now rewrite Ec.
  - rewrite TrimRight_cons, IH; reflexivity.
Qed.

Lemma TrimRight_head (s : string) (cutset : ascii) :
  strings.TrimRight s cutset <> EmptyString ->
  exists c t t', s = String c t /\ strings.TrimRight s cutset = String c t'.
Proof.
  destruct s as [|c s]; [intro H; now contradiction H|].
  intros H; cbn [strings.TrimRight] in *.
  destruct (strings.TrimRight s cutset) as [|d t].
  - destruct (c =? cutset)%char; [now contradiction H|].
    now exists c, s, EmptyString.
  - now exists c, s, (String d t).
Qed.

Lemma len_cons (c : ascii) (s : string) :
  strings.len (String c s) = strings.len s + 1.
Proof. unfold strings.len; cbn [String.length]; lia. Qed.

Lemma scan_val_cons (c : ascii) (s : string) :
  scan_val 0 (String c s) = big.digit_val c * 10 ^ strings.len s + scan_val 0 s.
Proof.
  cbn [scan_val]; rewrite scan_val_shift; ring.
Qed.

(** Dropping trailing zeros divides the number by a power of ten. *)
Lemma TrimRight_value (s : string) :
  all_digits s = true ->
  strings.len (strings.TrimRight s "0") <= strings.len s /\
  scan_val 0 s
  = scan_val 0 (strings.TrimRight s "0")
    * 10 ^ (strings.len s - strings.len (strings.TrimRight s "0")).
Proof.
  induction s as [|c s IH]; intro Hs.
  - split; [cbn; lia|reflexivity].
  - cbn in Hs; apply andb_prop in Hs as [Hc Hs].
    destruct (IH Hs) as [IHl IHv].
    assert (Hlen : 0 <= strings.len s) by (unfold strings.len; lia).
    rewrite TrimRight_cons.
    destruct (strings.TrimRight s "0") as [|d t] eqn:E.
    + change (scan_val 0 EmptyString) with 0 in IHv; rewrite Z.mul_0_l in IHv.
      destruct (c =? "0")%char eqn:Ec.
      * apply Ascii.eqb_eq in Ec; subst c.
        rewrite scan_val_cons, IHv, len_cons.
        change (big.digit_val "0") with 0.
        change (scan_val 0 EmptyString) with 0.
        change (strings.len EmptyString) with 0.
        split; lia.
      * rewrite (scan_val_cons c s), (scan_val_cons c EmptyString), IHv, !len_cons.
        change (scan_val 0 EmptyString) with 0.
        change (strings.len EmptyString) with 0.
        replace (strings.len s + 1 - (0 + 1)) with (strings.len s) by lia.
        change (10 ^ 0) with 1.
        split; lia.
    + set (T := String d t) in *.
      assert (HT : 0 <= strings.len T) by (unfold strings.len; lia).
      rewrite (scan_val_cons c s), (scan_val_cons c T), IHv, !len_cons.
      replace (strings.len s + 1 - (strings.len T + 1))
        with (strings.len s - strings.len T) by lia.
      split; [lia|].
      replace (strings.len s)
        with (strings.len T + (strings.len s - strings.len T)) at 1 by lia.
      rewrite Z.pow_add_r by lia.
      ring.
Qed.

(** ** [SetString] *)

Lemma scan_loop_digits (base0 : bool) (s rest : string)
      (val count : Z) (prev : big.prev_kind) (invalSep : bool) :
  all_digits s = true ->
  big.scan_loop 10 base0 (s ++ rest) val count prev invalSep
  = big.scan_loop 10 base0 rest (scan_val val s) (count + strings.len s)
                  (match s with EmptyString => prev | _ => big.PrevDigit end)
                  invalSep.
Proof.
  unfold strings.len.
  revert val count prev.
  induction s as [|c s IH]; intros val count prev Hs.
  - cbn; now rewrite Z.add_0_r.
  - cbn in Hs; apply andb_prop in Hs as [Hc Hs].
    cbn [append big.scan_loop scan_val String.length].
    rewrite (is_digit_not_sep _ Hc); cbn [andb].
    pose proof (digit_val_digit _ Hc) as Hd.
    destruct (big.digit_val c >=? 10) eqn:Hge; [lia|].
    rewrite (IH _ _ _ Hs), Nat2Z.inj_succ.
    f_equal; [lia|].
    now destruct s.
Qed.

Lemma scan_loop_stops (s : string) (val count : Z) (prev : big.prev_kind) :
  all_digits s = false ->
  big.sc_rest (big.scan_loop 10 false s val count prev false) <> EmptyString.
Proof.
  revert val count prev.
  induction s as [|c s IH]; intros val count prev Hs; [discriminate|].
  cbn [big.scan_loop]; rewrite andb_false_r.
  cbn in Hs.
  destruct (is_digit c) eqn:Hc.
  - pose proof (digit_val_digit _ Hc).
    destruct (big.digit_val c >=? 10) eqn:Hge; [lia|].
    apply IH; exact Hs.
  - pose proof (digit_val_not_digit _ Hc).
    destruct (big.digit_val c >=? 10) eqn:Hge; [|lia].
    cbn; discriminate.
Qed.

(** [SetString(s, 10)] on a run of digits gives the number they denote. *)
Lemma nat_scan_digits (s : string) :
  all_digits s = true -> s <> EmptyString ->
  big.nat_scan s 10 = (scan_val 0 s, false, EmptyString).
Proof.
  intros Hs Hne.
  pose proof (scan_loop_digits false s EmptyString 0 0 big.PrevOther false Hs) as H.
  rewrite append_nil_r in H; cbn [big.scan_loop] in H.
  unfold big.nat_scan; cbn [Z.eqb].
  rewrite H; cbn [big.sc_count big.sc_val big.sc_rest big.sc_invalSep big.sc_prev].
  destruct s as [|c s]; [congruence|].
  cbn [big.is_sep orb].
  destruct (0 + strings.len (String c s) =? 0) eqn:E; [|reflexivity].
  apply Z.eqb_eq in E; unfold strings.len in E.
  cbn [String.length] in E; rewrite Nat2Z.inj_succ in E; lia.
Qed.

Lemma nat_scan_not_digits (s : string) :
  all_digits s = false ->
  exists abs err rest,
    big.nat_scan s 10 = (abs, err, rest) /\ (err = true \/ rest <> EmptyString).
Proof.
  intro Hs.
  unfold big.nat_scan; cbn [Z.eqb].
  pose proof (scan_loop_stops s 0 0 big.PrevOther Hs) as Hrest.
  destruct (big.scan_loop 10 false s 0 0 big.PrevOther false)
    as [v c p i r]; cbn in *.
  destruct (c =? 0); do 3 eexists; (split; [reflexivity|]); now right.
Qed.

(** [SetString(s, 10)] succeeds exactly on an optionally signed run of at
    least one decimal digit. *)
Lemma SetString_10_success (s : string) :
  snd (big.SetString s 10) = signed_digits s.
Proof.
  assert (Hbody : forall (neg : bool) (body : string),
             snd (match big.nat_scan body 10 with
                  | (abs, true, _) => (abs, false)
                  | (abs, false, rest) =>
                      let v := if neg then - abs else abs in
                      match rest with
                      | EmptyString => (v, true)
                      | _ => (v, false)
                      end
                  end) = negb (body =? EmptyString)%string && all_digits body).
  { intros neg body.
    destruct (all_digits body) eqn:Hd.
    - destruct body as [|c b]; [reflexivity|].
      rewrite nat_scan_digits by (assumption || discriminate).
      reflexivity.
    - rewrite andb_false_r.
      destruct (nat_scan_not_digits body Hd) as (abs & err & rest & -> & H).
      destruct err; [reflexivity|].
      destruct H as [H|H]; [discriminate|].
      destruct rest; [congruence|reflexivity]. }
  destruct s as [|c s]; [reflexivity|].
  unfold big.SetString, signed_digits.
  destruct ((c =? "-")%char || (c =? "+")%char) eqn:Hsign.
  - apply Hbody.
  - rewrite Hbody. reflexivity.
Qed.

Lemma SetString_10_digits (s : string) :
  all_digits s = true -> s <> EmptyString -> big.SetString s 10 = (scan_val 0 s, true).
Proof.
  intros Hs Hne.
  destruct s as [|c s]; [congruence|].
  unfold big.SetString.
  assert (Hsign : (c =? "-")%char || (c =? "+")%char = false).
  { cbn in Hs; apply andb_prop in Hs as [Hc _].
    apply orb_false_intro; apply Ascii.eqb_neq; intros ->; discriminate Hc. }
  rewrite Hsign.
  apply orb_false_elim in Hsign as [-> _].
  now rewrite nat_scan_digits by (assumption || discriminate).
Qed.

(** [SetString(s, 0)] reads a run of digits that does not start with 0 as a
    decimal number. *)
Lemma SetString_0_digits (c : ascii) (s : string) :
  all_digits (String c s) = true -> (c =? "0")%char = false ->
  big.SetString (String c s) 0 = (scan_val 0 (String c s), true).
Proof.
  intros Hdig Hc0.
  assert (Hc : is_digit c = true)
    by (cbn in Hdig; now apply andb_prop in Hdig as [? _]).
  assert (Hsign : (c =? "-")%char || (c =? "+")%char = false).
  { apply orb_false_intro; apply Ascii.eqb_neq; intros ->; discriminate Hc. }
  unfold big.SetString; rewrite Hsign.
  apply orb_false_elim in Hsign as [-> _].
  unfold big.nat_scan; cbn [Z.eqb]; rewrite Hc0.
  pose proof (scan_loop_digits true (String c s) EmptyString 0 0 big.PrevOther false Hdig)
    as H.
  rewrite append_nil_r in H; rewrite H.
  cbn [big.scan_loop big.sc_count big.sc_val big.sc_rest big.sc_invalSep
       big.sc_prev big.is_sep orb].
  destruct (0 + strings.len (String c s) =? 0) eqn:E; [|reflexivity].
  apply Z.eqb_eq in E; unfold strings.len in E.
  cbn [String.length] in E; rewrite Nat2Z.inj_succ in E; lia.
Qed.

(** ** [Text(10)] *)

Lemma digit_char_digit (d : Z) :
  0 <= d <= 9 ->
  is_digit (big.digit_char d) = true /\ big.digit_val (big.digit_char d) = d.
Proof.
  intro H.
  assert (Hd : d = 0 \/ d = 1 \/ d = 2 \/ d = 3 \/ d = 4 \/ d = 5 \/ d = 6 \/
               d = 7 \/ d = 8 \/ d = 9) by lia.
  repeat (destruct Hd as [-> | Hd]; [split; reflexivity|]).
  subst d; split; reflexivity.
Qed.

Lemma digits_S (fuel : nat) (n : Z) (acc : string) :
  big.digits (S fuel) n acc
  = if n <? 10 then String (big.digit_char (n mod 10)) acc
    else big.digits fuel (n / 10) (String (big.digit_char (n mod 10)) acc).
Proof. reflexivity. Qed.

Lemma digits_acc (fuel : nat) (n : Z) (acc : string) :
  big.digits fuel n acc = big.digits fuel n EmptyString ++ acc.
Proof.
  revert n acc.
  induction fuel as [|fuel IH]; intros n acc; cbn [big.digits]; [reflexivity|].
  destruct (n <? 10); [reflexivity|].
  rewrite IH, (IH _ (String _ EmptyString)), append_assoc.
  reflexivity.
Qed.

(** With enough fuel [digits] writes the decimal numeral of [n]: digits
    only, denoting [n], without a leading zero (but "0" itself). *)
Lemma digits_spec (fuel : nat) (n : Z) :
  0 <= n < 2 ^ Z.of_nat (S fuel) ->
  let ds := big.digits (S fuel) n EmptyString in
  all_digits ds = true /\
  scan_val 0 ds = n /\
  1 <= strings.len ds /\
  n < 10 ^ strings.len ds /\
  (1 <= n -> 10 ^ (strings.len ds - 1) <= n).
Proof.
  revert n.
  induction fuel as [|fuel IH]; intros n Hn; cbv zeta;
    rewrite digits_S; (destruct (n <? 10) eqn:Hlt;
                       [apply Z.ltb_lt in Hlt|apply Z.ltb_ge in Hlt]).
  1, 3: assert (Hd : 0 <= n mod 10 <= 9)
          by (pose proof (Z.mod_pos_bound n 10); lia);
        destruct (digit_char_digit _ Hd) as [H1 H2];
        cbn [all_digits scan_val]; rewrite H1, H2;
        rewrite Z.mod_small by lia;
        unfold strings.len; cbn [String.length];
        change (Z.of_nat 1) with 1; cbn [Z.sub Z.pow Z.pow_pos Pos.iter Z.mul Pos.mul];
        repeat split; try reflexivity; lia.
  - change (2 ^ Z.of_nat 1) with 2 in Hn; lia.
  - assert (Hq : 0 <= n / 10 < 2 ^ Z.of_nat (S fuel)).
    { split; [apply Z.div_pos; lia|].
      apply Z.div_lt_upper_bound; [lia|].
      rewrite (Nat2Z.inj_succ (S fuel)), Z.pow_succ_r in Hn by lia.
      lia. }
    specialize (IH _ Hq); cbv zeta in IH.
    destruct IH as (IH1 & IH2 & IH3 & IH4 & IH5).
    rewrite digits_acc.
    set (ds := big.digits (S fuel) (n / 10) EmptyString) in *.
    assert (Hd : 0 <= n mod 10 <= 9)
          by (pose proof (Z.mod_pos_bound n 10); lia).
    destruct (digit_char_digit _ Hd) as [H1 H2].
    pose proof (Z.div_mod n 10 ltac:(lia)) as Hdm.
    assert (Hlen : strings.len (ds ++ String (big.digit_char (n mod 10)) EmptyString)
                   = strings.len ds + 1).
    { unfold strings.len; rewrite length_append; cbn [String.length]; lia. }
    rewrite Hlen.
    rewrite all_digits_append, scan_val_append, IH1, IH2.
    cbn [all_digits scan_val]; rewrite H1, H2.
    repeat split; try reflexivity; try lia.
    + rewrite Z.pow_add_r by lia. change (10 ^ 1) with 10. lia.
    + intros _.
      replace (strings.len ds + 1 - 1) with (Z.succ (strings.len ds - 1)) by lia.
      rewrite Z.pow_succ_r by lia.
      assert (1 <= n / 10) by (apply Z.div_le_lower_bound; lia).
      specialize (IH5 ltac:(lia)). lia.
Qed.

Lemma Text10_nonneg (x : Z) :
  0 <= x ->
  big.Text10 x = big.digits (S (Z.to_nat (Z.log2 x))) x EmptyString /\
  x < 2 ^ Z.of_nat (S (Z.to_nat (Z.log2 x))).
Proof.
  intro Hx.
  unfold big.Text10.
  rewrite Z.abs_eq by lia.
  destruct (x <? 0) eqn:Hneg; [apply Z.ltb_lt in Hneg; lia|].
  split; [reflexivity|].
  rewrite Nat2Z.inj_succ, Z2Nat.id by apply Z.log2_nonneg.
  destruct (Z.eq_dec x 0) as [->|Hnz]; [reflexivity|].
  apply Z.log2_spec; lia.
Qed.

Lemma Text10_spec (x : Z) :
  0 <= x ->
  all_digits (big.Text10 x) = true /\
  scan_val 0 (big.Text10 x) = x /\
  1 <= strings.len (big.Text10 x) /\
  x < 10 ^ strings.len (big.Text10 x) /\
  (1 <= x -> 10 ^ (strings.len (big.Text10 x) - 1) <= x).
Proof.
  intro Hx.
  destruct (Text10_nonneg x Hx) as [-> Hfuel].
  apply digits_spec; lia.
Qed.

Lemma Text10_not_empty (x : Z) : 0 <= x -> big.Text10 x <> EmptyString.
Proof.
  intros Hx Hempty.
  destruct (Text10_spec x Hx) as (_ & _ & Hlen & _).
  rewrite Hempty in Hlen; cbn in Hlen; lia.
Qed.

(** Base-unit identity: [SetString] reads back what [Text] writes. *)
Lemma SetString_Text10 (x : Z) :
  0 <= x -> big.SetString (big.Text10 x) 10 = (x, true).
Proof.
  intro Hx.
  destruct (Text10_spec x Hx) as (Hd & Hv & _).
  rewrite SetString_10_digits by (assumption || now apply Text10_not_empty).
  now rewrite Hv.
Qed.

Lemma Text10_short (m : Z) :
  0 <= m < 1000 -> 1 <= strings.len (big.Text10 m) <= 3.
Proof.
  intros Hm.
  destruct (Text10_spec m ltac:(lia)) as (_ & _ & Hlen & _ & Hlow).
  split; [exact Hlen|].
  destruct (Z.eq_dec m 0) as [->|Hnz]; [cbn; lia|].
  specialize (Hlow ltac:(lia)).
  destruct (Z_le_gt_dec (strings.len (big.Text10 m)) 3) as [|Hgt]; [assumption|].
  assert (10 ^ 3 <= 10 ^ (strings.len (big.Text10 m) - 1))
    by (apply Z.pow_le_mono_r; lia).
  change (10 ^ 3) with 1000 in *. lia.
Qed.

(** ** The unit table and the unit labels *)

Lemma UnitToMultiplier_multiplierFor (unit : string) :
  UnitToMultiplier unit = multiplierFor unit.
Proof.
  unfold UnitToMultiplier, multiplierFor.
  generalize (strings.ToLower unit); intro u.
  unfold UnitTable, case_of; cbn [existsb tier_of orb].
  repeat match goal with
         | |- context [String.eqb u ?a] =>
             destruct (String.eqb u a); cbn [orb]; [reflexivity|]
         end.
  reflexivity.
Qed.

Lemma tier_of_range (alias : string) (k : Z) :
  tier_of alias UnitTable = Some k -> 0 <= k <= 10.
Proof.
  unfold UnitTable; cbn [tier_of].
  repeat match goal with
         | |- context [String.eqb alias ?a] => destruct (String.eqb alias a)
         end;
    intro H; inversion H; lia.
Qed.

Lemma metricUnits_at_multiplier (p : Z) :
  0 <= p <= 10 ->
  exists label,
    metricUnits_at p = Ok label /\
    strings.Contains label " " = false /\
    strings.Contains label "." = false /\
    UnitToMultiplier label = Ok (1000 ^ p).
Proof.
  intro Hp.
  assert (H : p = 0 \/ p = 1 \/ p = 2 \/ p = 3 \/ p = 4 \/ p = 5 \/ p = 6 \/
              p = 7 \/ p = 8 \/ p = 9 \/ p = 10) by lia.
  repeat (destruct H as [-> | H];
          [eexists; split; [reflexivity|repeat split; reflexivity]|]).
  subst p; eexists; split; [reflexivity|repeat split; reflexivity].
Qed.

Lemma metricUnits_at_in_range (tier : Z) :
  0 <= tier <= 10 -> exists label, metricUnits_at tier = Ok label.
Proof.
  intro H; destruct (metricUnits_at_multiplier tier H) as (label & Hl & _).
  now exists label.
Qed.

Lemma metricUnits_at_out_of_range (p : Z) : 10 < p -> metricUnits_at p = Panic.
Proof.
  intro Hp; unfold metricUnits_at.
  change (strings.len_list metricUnits) with 11.
  destruct (p <? 11) eqn:Hlt; [apply Z.ltb_lt in Hlt; lia|].
  now rewrite andb_false_r.
Qed.

Lemma pow_1000 (p : Z) : 0 <= p -> 1000 ^ p = 10 ^ (3 * p).
Proof.
  intro Hp. rewrite Z.pow_mul_r by lia. reflexivity.
Qed.

(** ** The loops *)

Lemma step_down_step_down_value (fuel : nat) (ints : big_ints) (postfixPos : Z) :
  (at_input (fst (step_down fuel ints postfixPos)),
   snd (step_down fuel ints postfixPos))
  = step_down_value fuel (at_input ints) postfixPos.
Proof.
  revert ints postfixPos.
  induction fuel as [|fuel IH]; intros ints postfixPos;
    cbn [step_down step_down_value]; [reflexivity|].
  destruct (at_input ints >=? thousand); cbn [andb at_input at_modInt];
    [|reflexivity].
  destruct (at_input ints mod thousand =? zero); [|reflexivity].
  cbv zeta; rewrite IH; reflexivity.
Qed.

Lemma WeiToString_layout_value (input : Z) (standard : bool) :
  WeiToString_layout input standard
  = let '(reduced, postfixPos) :=
      step_down_value (Z.to_nat (Z.log2 input)) input 0 in
    let '(outputValue, postfixPos) := place_decimal reduced postfixPos standard in
    (reduced, outputValue, postfixPos).
Proof.
  unfold WeiToString_layout.
  rewrite <- (step_down_step_down_value _ (mkInts input input) 0).
  destruct (step_down (Z.to_nat (Z.log2 input)) (mkInts input input) 0)
    as [ints p].
  reflexivity.
Qed.

Lemma step_down_tier (fuel : nat) (input postfixPos : Z) :
  postfixPos <= snd (step_down_value fuel input postfixPos).
Proof.
  revert input postfixPos.
  induction fuel as [|fuel IH]; intros input postfixPos; cbn [step_down_value].
  - cbn; lia.
  - destruct ((input >=? thousand) && (input mod thousand =? zero)).
    + specialize (IH (input / thousand) (postfixPos + 1)); lia.
    + cbn; lia.
Qed.

(** The fuel given to [step_down_value] is never used up: the loop ends because
    its condition fails, with [input = reduced * 1000^tiers]. *)
Lemma step_down_done (fuel : nat) (input postfixPos : Z) :
  Z.log2 input <= Z.of_nat fuel ->
  exists reduced tiers,
    step_down_value fuel input postfixPos = (reduced, postfixPos + tiers) /\
    0 <= tiers /\
    input = reduced * 1000 ^ tiers /\
    (reduced >=? thousand) && (reduced mod thousand =? zero) = false.
Proof.
  revert input postfixPos.
  induction fuel as [|fuel IH]; intros input postfixPos Hfuel;
    cbn [step_down_value].
  - exists input, 0.
    rewrite Z.add_0_r, Z.mul_1_r.
    repeat split; try lia.
    change (Z.of_nat 0) with 0 in Hfuel.
    assert (Hle : input <= 1).
    { apply Z.log2_null. pose proof (Z.log2_nonneg input). lia. }
    unfold thousand.
    destruct (input >=? 1000) eqn:Hge; [|reflexivity].
    rewrite Z.geb_leb in Hge; apply Z.leb_le in Hge; lia.
  - destruct ((input >=? thousand) && (input mod thousand =? zero)) eqn:Hcond.
    + apply andb_prop in Hcond as [Hge Hmod].
      unfold thousand, zero in *.
      rewrite Z.geb_leb in Hge; apply Z.leb_le in Hge.
      apply Z.eqb_eq in Hmod.
      assert (Hlog : Z.log2 (input / 1000) <= Z.of_nat fuel).
      { assert (Hhalf : input / 1000 <= Z.shiftr input 1).
        { rewrite Z.shiftr_div_pow2 by lia. change (2 ^ 1) with 2.
          apply Z.div_le_lower_bound; [lia|].
          pose proof (Z.div_mod input 1000 ltac:(lia)).
          assert (0 <= input / 1000) by (apply Z.div_pos; lia).
          lia. }
        apply Z.log2_le_mono in Hhalf.
        rewrite Z.log2_shiftr in Hhalf by lia.
        rewrite Nat2Z.inj_succ in Hfuel. lia. }
      destruct (IH (input / 1000) (postfixPos + 1) Hlog)
        as (reduced & tiers & Heq & Htiers & Hval & Hstop).
      exists reduced, (tiers + 1).
      rewrite Heq.
      split; [f_equal; lia|].
      split; [lia|].
      split; [|exact Hstop].
      rewrite Z.pow_add_r, Z.pow_1_r by lia.
      pose proof (Z.div_mod input 1000 ltac:(lia)). lia.
    + exists input, 0.
      rewrite Z.add_0_r, Z.mul_1_r.
      repeat split; first [lia | exact Hcond].
Qed.

Lemma step_down_bound (fuel : nat) (input postfixPos : Z) :
  0 <= input -> 0 <= fst (step_down_value fuel input postfixPos) <= input.
Proof.
  revert input postfixPos.
  induction fuel as [|fuel IH]; intros input postfixPos Hin; cbn [step_down_value].
  - cbn; lia.
  - destruct ((input >=? thousand) && (input mod thousand =? zero)).
    + unfold thousand.
      assert (0 <= input / 1000 <= input) by (Z.div_mod_to_equations; lia).
      specialize (IH (input / 1000) (postfixPos + 1) ltac:(lia)). lia.
    + cbn; lia.
Qed.

(** On [m * 1000^p] with [1 <= m < 1000] the loop runs [p] times. *)
Lemma step_down_clean (m : Z) (p fuel : nat) (postfixPos : Z) :
  1 <= m < 1000 -> (p <= fuel)%nat ->
  step_down_value fuel (m * 1000 ^ Z.of_nat p) postfixPos = (m, postfixPos + Z.of_nat p).
Proof.
  intro Hm.
  revert fuel postfixPos.
  induction p as [|p IH]; intros fuel postfixPos Hfuel.
  - change (1000 ^ Z.of_nat 0) with 1.
    rewrite Z.mul_1_r, Z.add_0_r.
    destruct fuel as [|fuel]; [reflexivity|].
    cbn [step_down_value]; unfold thousand.
    destruct (m >=? 1000) eqn:Hge; [|reflexivity].
    rewrite Z.geb_leb in Hge; apply Z.leb_le in Hge; lia.
  - destruct fuel as [|fuel]; [lia|].
    cbn [step_down_value]; unfold thousand, zero.
    rewrite Nat2Z.inj_succ, Z.pow_succ_r by lia.
    replace (m * (1000 * 1000 ^ Z.of_nat p))
      with (m * 1000 ^ Z.of_nat p * 1000) by ring.
    rewrite Z.mod_mul, Z.div_mul by lia.
    assert (Hpow : 0 < 1000 ^ Z.of_nat p) by (apply Z.pow_pos_nonneg; lia).
    destruct (m * 1000 ^ Z.of_nat p * 1000 >=? 1000) eqn:Hge.
    + cbn [andb Z.eqb].
      rewrite IH by lia. f_equal; lia.
    + rewrite Z.geb_leb in Hge; apply Z.leb_gt in Hge; nia.
Qed.

Lemma step_down_clean_log2 (m p : Z) :
  1 <= m < 1000 -> 0 <= p ->
  step_down_value (Z.to_nat (Z.log2 (m * 1000 ^ p))) (m * 1000 ^ p) 0 = (m, p).
Proof.
  intros Hm Hp.
  rewrite <- (Z2Nat.id p) at 2 3 by exact Hp.
  rewrite step_down_clean; [f_equal; lia|exact Hm|].
  apply Z2Nat.inj_le; [lia|apply Z.log2_nonneg|].
  rewrite <- (Z.log2_pow2 p) at 1 by exact Hp.
  apply Z.log2_le_mono.
  assert (2 ^ p <= 1000 ^ p) by (apply Z.pow_le_mono_l; lia).
  assert (0 < 1000 ^ p) by (apply Z.pow_pos_nonneg; lia).
  nia.
Qed.

Lemma shift_up_eq (n : nat) (decimalPlace postfixPos : Z) :
  shift_up n decimalPlace postfixPos
  = (decimalPlace - 3 * Z.of_nat n, postfixPos + Z.of_nat n).
Proof.
  revert decimalPlace postfixPos.
  induction n as [|n IH]; intros decimalPlace postfixPos.
  - cbn [shift_up]; f_equal; lia.
  - cbn [shift_up]; rewrite IH; f_equal; lia.
Qed.

Lemma shift_down_eq (n : nat) (outputValue : string) (decimalPlace postfixPos : Z) :
  shift_down n outputValue decimalPlace postfixPos
  = (outputValue ++ strings.Repeat_nat "000" n,
     decimalPlace + 3 * Z.of_nat n, postfixPos - Z.of_nat n).
Proof.
  revert outputValue decimalPlace postfixPos.
  induction n as [|n IH]; intros outputValue decimalPlace postfixPos.
  - cbn [shift_down strings.Repeat_nat].
    rewrite append_nil_r; f_equal; [f_equal|]; lia.
  - cbn [shift_down]; rewrite IH.
    change (strings.Repeat "0" 3) with "000".
    cbn [strings.Repeat_nat]; rewrite append_assoc.
    f_equal; [f_equal|]; lia.
Qed.

Lemma div_loop_eq (n : nat) (multiplier : Z) :
  div_loop n multiplier = multiplier / 10 ^ Z.of_nat n.
Proof.
  revert multiplier.
  induction n as [|n IH]; intro multiplier; cbn [div_loop].
  - change (10 ^ Z.of_nat 0) with 1. now rewrite Z.div_1_r.
  - rewrite IH, Nat2Z.inj_succ, Z.pow_succ_r by lia.
    assert (0 < 10 ^ Z.of_nat n) by (apply Z.pow_pos_nonneg; lia).
    rewrite Z.div_div by lia. reflexivity.
Qed.

(** ** Formatting *)

Lemma desired_tier_lower (postfixPos digits : Z) (standard : bool) :
  0 <= postfixPos -> 0 <= digits -> 0 <= desired_tier postfixPos digits standard.
Proof.
  intros Hp Hd; unfold desired_tier.
  assert (digits > 3 -> 1 <= digits / 3)
    by (intro; apply Z.div_le_lower_bound; lia).
  destruct (digits >? 3) eqn:H3; [apply Z.gtb_lt in H3|];
    repeat match goal with
           | |- context [if ?b then _ else _] => destruct b
           end; lia.
Qed.

Lemma desired_tier_eq (postfixPos digits : Z) (standard : bool) :
  1 <= digits ->
  desired_tier postfixPos digits standard
  = let d := postfixPos + (digits - 1) / 3 in
    if (d >? 3) && standard then 6 else d.
Proof.
  intro Hd; unfold desired_tier; cbv zeta.
  assert (Heq : (if digits >? 3
                 then if digits mod 3 =? 0
                      then postfixPos + digits / 3 - 1
                      else postfixPos + digits / 3
                 else postfixPos) = postfixPos + (digits - 1) / 3).
  { destruct (digits >? 3) eqn:H3.
    - destruct (digits mod 3 =? 0) eqn:Hm;
        [apply Z.eqb_eq in Hm|apply Z.eqb_neq in Hm];
        Z.div_mod_to_equations; lia.
    - rewrite Z.gtb_ltb in H3; apply Z.ltb_ge in H3.
      Z.div_mod_to_equations; lia. }
  now rewrite Heq.
Qed.

(** The final tier of [WeiToString] is the desired one: the two shifting
    loops always reach it. *)
Lemma WeiToString_layout_tier (input : Z) (standard : bool) :
  let '(reduced, postfixPos) := step_down_value (Z.to_nat (Z.log2 input)) input 0 in
  snd (WeiToString_layout input standard)
  = desired_tier postfixPos (strings.len (big.Text10 reduced)) standard.
Proof.
  rewrite WeiToString_layout_value; unfold place_decimal.
  pose proof (step_down_tier (Z.to_nat (Z.log2 input)) input 0) as Hp.
  destruct (step_down_value (Z.to_nat (Z.log2 input)) input 0) as [reduced p].
  cbn [snd] in Hp.
  fold (desired_tier p (strings.len (big.Text10 reduced)) standard).
  pose proof (desired_tier_lower p (strings.len (big.Text10 reduced)) standard Hp
                (Nat2Z.is_nonneg _)) as Hd.
  set (d := desired_tier p (strings.len (big.Text10 reduced)) standard) in *.
  rewrite shift_up_eq, shift_down_eq; cbn [snd].
  lia.
Qed.

(** An amount [m * 1000^p] whose reduced part [m] has [n] digits lies below
    tier [K + 1] exactly when it is less than [10^(3(K+1))]. *)
Lemma tier_magnitude (m p n K : Z) :
  0 <= p -> 1 <= n -> 0 <= K ->
  10 ^ (n - 1) <= m < 10 ^ n ->
  (p + (n - 1) / 3 <= K <-> m * 1000 ^ p < 10 ^ (3 * (K + 1))).
Proof.
  intros Hp Hn HK [Hlow Hhigh].
  rewrite (pow_1000 p Hp).
  assert (Hpos : 0 < 10 ^ (3 * p)) by (apply Z.pow_pos_nonneg; lia).
  assert (Hlo : 10 ^ (n - 1 + 3 * p) <= m * 10 ^ (3 * p)).
  { rewrite Z.pow_add_r by lia. nia. }
  assert (Hhi : m * 10 ^ (3 * p) < 10 ^ (n + 3 * p)).
  { rewrite Z.pow_add_r by lia. nia. }
  split; intro H.
  - assert (Hle : n + 3 * p <= 3 * (K + 1)) by (Z.div_mod_to_equations; lia).
    apply (Z.pow_le_mono_r 10) in Hle; lia.
  - destruct (Z_le_gt_dec (p + (n - 1) / 3) K) as [|Hgt]; [assumption|].
    assert (Hge : 3 * (K + 1) <= n - 1 + 3 * p)
      by (Z.div_mod_to_equations; lia).
    apply (Z.pow_le_mono_r 10) in Hge; lia.
Qed.

(** The final tier of a positive amount: the tier [D] read off its
    magnitude, sent to 6 in standard mode when it is beyond 3. *)
Lemma WeiToString_tier_magnitude (amount : Z) (standard : bool) :
  1 <= amount ->
  exists D,
    0 <= D /\
    snd (WeiToString_layout amount standard)
    = (if (D >? 3) && standard then 6 else D) /\
    (forall K, 0 <= K -> D <= K <-> amount < 10 ^ (3 * (K + 1))).
Proof.
  intro Ha.
  pose proof (WeiToString_layout_tier amount standard) as Htier.
  destruct (step_down_done (Z.to_nat (Z.log2 amount)) amount 0)
    as (m & p & Hstep & Hp & Hval & _).
  { rewrite Z2Nat.id by apply Z.log2_nonneg; lia. }
  rewrite Hstep in Htier; rewrite Z.add_0_l in Htier.
  assert (Hm : 1 <= m).
  { assert (0 < 1000 ^ p) by (apply Z.pow_pos_nonneg; lia). nia. }
  destruct (Text10_spec m ltac:(lia)) as (_ & _ & Hlen & Hhigh & Hlow).
  specialize (Hlow Hm).
  rewrite desired_tier_eq in Htier by exact Hlen; cbv zeta in Htier.
  exists (p + (strings.len (big.Text10 m) - 1) / 3).
  split; [|split; [exact Htier|]].
  - assert (0 <= (strings.len (big.Text10 m) - 1) / 3)
      by (apply Z.div_pos; lia).
    lia.
  - intros K HK; rewrite Hval.
    apply tier_magnitude; lia.
Qed.

Lemma WeiToString_layout_clean (m p : Z) :
  1 <= m < 1000 -> 0 <= p ->
  WeiToString_layout (m * 1000 ^ p) false = (m, big.Text10 m, p).
Proof.
  intros Hm Hp.
  rewrite WeiToString_layout_value; unfold place_decimal.
  rewrite (step_down_clean_log2 m p Hm Hp).
  pose proof (Text10_short m ltac:(lia)) as Hlen.
  destruct (Text10_spec m ltac:(lia)) as (Hdig & _).
  set (L := strings.len (big.Text10 m)) in *.
  assert (H3 : (L >? 3) = false) by (rewrite Z.gtb_ltb; apply Z.ltb_ge; lia).
  rewrite H3, andb_false_r, Z.sub_diag.
  cbn [Z.to_nat shift_up].
  rewrite Z.sub_diag.
  cbn [Z.to_nat shift_down].
  fold L.
  assert (H0 : (L <=? 0) = false) by (apply Z.leb_gt; lia).
  rewrite H0, Z.ltb_irrefl.
  rewrite (all_digits_Contains _ "." Hdig eq_refl).
  reflexivity.
Qed.

(** Step 2 on a reduced amount of more than three digits: the point is
    placed one to three digits from the left, and the tier rises by the
    number of three-digit groups behind it. *)
Lemma place_decimal_long (m p : Z) :
  let ds := big.Text10 m in
  let n := strings.len ds in
  let groups := (n - 1) / 3 in
  3 < n ->
  place_decimal m p false
  = (strings.TrimRight (strings.slice_to ds (n - 3 * groups) ++ "."
                          ++ strings.slice_from ds (n - 3 * groups)) "0",
     p + groups).
Proof.
  intros ds n groups Hn.
  unfold place_decimal.
  fold ds; fold n.
  assert (Hd : (if n >? 3
                then if n mod 3 =? 0 then p + n / 3 - 1 else p + n / 3
                else p) = p + groups).
  { pose proof (desired_tier_eq p n false ltac:(lia)) as H.
    unfold desired_tier in H; cbv zeta in H.
    rewrite !andb_false_r in H. exact H. }
  cbv zeta; rewrite Hd, andb_false_r.
  assert (Hg : 1 <= groups /\ 1 <= n - 3 * groups <= 3)
    by (unfold groups; Z.div_mod_to_equations; lia).
  rewrite shift_up_eq.
  replace (Z.of_nat (Z.to_nat (p + groups - p))) with groups by lia.
  replace (p + groups - (p + groups)) with 0 by lia.
  cbn [Z.to_nat shift_down].
  fold n.
  destruct (n - 3 * groups <=? 0) eqn:E0; [apply Z.leb_le in E0; lia|].
  destruct (n - 3 * groups <? n) eqn:E1; [|apply Z.ltb_ge in E1; lia].
  rewrite !Contains_append; cbn [strings.Contains Ascii.eqb Bool.eqb andb orb].
  rewrite orb_true_r; cbn [orb].
  reflexivity.
Qed.

Lemma format_clean (m p : Z) :
  1 <= m < 1000 -> 0 <= p ->
  format (m * 1000 ^ p) false
  = (unit <- metricUnits_at p ;; Ok (big.Text10 m ++ " " ++ unit)).
Proof.
  intros Hm Hp.
  unfold format, WeiToString.
  now rewrite (WeiToString_layout_clean m p Hm Hp).
Qed.

(** Without the standard restriction, formatting yields a string exactly
    for the amounts below 10^33 and panics from 10^33 on. *)
Lemma format_domain (amount : Z) :
  0 <= amount ->
  (amount < 10 ^ 33 -> exists s, format amount false = Ok s) /\
  (10 ^ 33 <= amount -> format amount false = Panic).
Proof.
  intro Ha.
  destruct (Z.eq_dec amount 0) as [->|Hnz].
  { split; [intros _; eexists; reflexivity|intro H; exfalso; lia]. }
  destruct (WeiToString_tier_magnitude amount false ltac:(lia))
    as (D & HD & Htier & Hmag).
  rewrite andb_false_r in Htier.
  unfold format, WeiToString.
  destruct (WeiToString_layout amount false) as [[input' outputValue] tier].
  cbn [snd] in *; subst tier.
  specialize (Hmag 10 ltac:(lia)); change (3 * (10 + 1)) with 33 in Hmag.
  split; intro H.
  - destruct (metricUnits_at_in_range D) as (label & ->); [lia|].
    eexists; reflexivity.
  - rewrite metricUnits_at_out_of_range by lia. reflexivity.
Qed.

Lemma WeiToString_input_after (input : Z) (standard : bool) :
  fst (WeiToString input standard)
  = fst (step_down_value (Z.to_nat (Z.log2 input)) input 0).
Proof.
  unfold WeiToString; rewrite WeiToString_layout_value; unfold place_decimal.
  destruct (step_down_value (Z.to_nat (Z.log2 input)) input 0) as [reduced p].
  rewrite shift_up_eq, shift_down_eq.
  reflexivity.
Qed.

(** The caller's big integer is left as it was exactly when step 1 does not
    run; every amount that is a multiple of 1000 from 1000 on is replaced
    by a smaller number. *)
Lemma WeiToString_input_changed (input : Z) (standard : bool) :
  1000 <= input -> input mod 1000 = 0 ->
  0 <= fst (WeiToString input standard) <= input / 1000 /\
  fst (WeiToString input standard) < input.
Proof.
  intros Hge Hmod.
  rewrite WeiToString_input_after.
  assert (Hfuel : exists fuel, Z.to_nat (Z.log2 input) = S fuel).
  { assert (H : 1 <= Z.log2 input).
    { apply Z.log2_le_pow2; [lia|]. change (2 ^ 1) with 2. lia. }
    exists (Nat.pred (Z.to_nat (Z.log2 input))). lia. }
  destruct Hfuel as [fuel ->].
  cbn [step_down_value]; unfold thousand, zero.
  assert (Hc : (input >=? 1000) && (input mod 1000 =? 0) = true).
  { rewrite Hmod, Z.geb_leb. cbn [Z.eqb]. rewrite andb_true_r.
    apply Z.leb_le; lia. }
  rewrite Hc.
  assert (0 <= input / 1000 < input) by (Z.div_mod_to_equations; lia).
  pose proof (step_down_bound fuel (input / 1000) (0 + 1) ltac:(lia)).
  lia.
Qed.

Lemma WeiToString_input_kept (input : Z) (standard : bool) :
  (input >=? 1000) && (input mod 1000 =? 0) = false ->
  fst (WeiToString input standard) = input.
Proof.
  intro Hc.
  rewrite WeiToString_input_after.
  destruct (Z.to_nat (Z.log2 input)) as [|fuel]; [reflexivity|].
  cbn [step_down_value]; unfold thousand, zero.
  now rewrite Hc.
Qed.

(** ** Parsing *)

Lemma integerStringToWei_bad_number (amount unit : string) (result : Z) :
  signed_digits amount = false ->
  integerStringToWei amount unit result
  = Err ("Failed to parse numeric value of " ++ amount ++ " " ++ unit).
Proof.
  intro Hbad.
  unfold integerStringToWei.
  pose proof (SetString_10_success amount) as Hs.
  destruct (big.SetString amount 10) as [number success].
  cbn [snd] in Hs; rewrite Hs, Hbad.
  reflexivity.
Qed.

(** The two-token branch of [StringToWei]. *)
Lemma StringToWei_two_tokens (num unit : string) :
  strings.Contains num " " = false ->
  strings.Contains unit " " = false ->
  StringToWei (num ++ " " ++ unit)
  = (result <- (if strings.Contains num "." then decimalStringToWei num unit 0
                else integerStringToWei num unit 0) ;;
     if result <? 0 then Err "Value resulted in negative number of Wei"
     else Ok result).
Proof.
  intros Hnum Hunit.
  unfold StringToWei.
  change (" " ++ unit) with (String " " unit).
  rewrite append_not_empty, Contains_append.
  cbn [strings.Contains Ascii.eqb Bool.eqb andb orb].
  rewrite orb_true_r.
  cbv zeta.
  rewrite (Split_at_sep _ _ _ Hnum), (Split_no_sep _ _ Hunit).
  reflexivity.
Qed.

(** Base-unit identity: a bare decimal numeral is its own number of Wei. *)
Lemma parse_base_unit_identity (n : Z) :
  0 <= n -> parse (big.Text10 n) = Ok n.
Proof.
  intro Hn.
  destruct (Text10_spec n Hn) as (Hdig & _).
  pose proof (Text10_not_empty n Hn) as Hne.
  unfold parse, StringToWei.
  apply String.eqb_neq in Hne; rewrite Hne.
  rewrite (all_digits_Contains _ " " Hdig eq_refl).
  rewrite (SetString_Text10 n Hn); cbn [fst bind].
  destruct (n <? 0) eqn:Hneg; [apply Z.ltb_lt in Hneg; lia|reflexivity].
Qed.

(** Parsing a run of digits followed by a known unit. *)
Lemma parse_integer_unit (num unit : string) (multiplier : Z) :
  all_digits num = true -> num <> EmptyString ->
  strings.Contains unit " " = false ->
  UnitToMultiplier unit = Ok multiplier ->
  0 <= multiplier ->
  parse (num ++ " " ++ unit) = Ok (scan_val 0 num * multiplier).
Proof.
  intros Hdig Hne Hunit Hmult Hpos.
  unfold parse.
  rewrite (StringToWei_two_tokens _ _
             (all_digits_Contains _ " " Hdig eq_refl) Hunit).
  rewrite (all_digits_Contains _ "." Hdig eq_refl).
  unfold integerStringToWei.
  rewrite (SetString_10_digits _ Hdig Hne), Hmult.
  cbn [negb bind].
  pose proof (scan_val_nonneg _ Hdig) as Hval.
  destruct (scan_val 0 num * multiplier <? 0) eqn:Hneg; [|reflexivity].
  apply Z.ltb_lt in Hneg; nia.
Qed.

(** A number with a decimal point whose digits after the point, once the
    trailing zeros are dropped, do not start with 0: the value is
    [integerPart * multiplier + F * (multiplier / 10^L)], and the input is
    refused when [10^L] does not divide the multiplier. *)
Lemma parse_decimal (intPart frac unit : string) (k : Z) :
  all_digits intPart = true ->
  all_digits frac = true ->
  strings.Contains unit " " = false ->
  0 <= k ->
  UnitToMultiplier unit = Ok (10 ^ (3 * k)) ->
  let F := strings.TrimRight frac "0" in
  let L := strings.len F in
  match F with String c _ => (c =? "0")%char | EmptyString => false end = false ->
  parse (intPart ++ "." ++ frac ++ " " ++ unit)
  = if L =? 0 then Ok (scan_val 0 intPart * 10 ^ (3 * k))
    else if 10 ^ (3 * k) mod 10 ^ L =? 0 then
           Ok (scan_val 0 intPart * 10 ^ (3 * k)
               + 10 ^ (3 * k) / 10 ^ L * scan_val 0 F)
    else Err "Value resulted in fractional number of Wei".
Proof.
  intros Hint Hfrac Hunit Hk Hmult F L Hlead.
  pose proof (TrimRight_all_digits frac "0" Hfrac) as HF; fold F in HF.
  pose proof (scan_val_nonneg _ Hint) as Hiv.
  pose proof (scan_val_nonneg _ HF) as Hfv.
  assert (Hpow : 0 < 10 ^ (3 * k)) by (apply Z.pow_pos_nonneg; lia).
  unfold parse.
  replace (intPart ++ "." ++ frac ++ " " ++ unit)
    with ((intPart ++ "." ++ frac) ++ " " ++ unit)
    by (now rewrite append_assoc).
  rewrite StringToWei_two_tokens; [|rewrite Contains_append; cbn|exact Hunit].
  2: { rewrite (all_digits_Contains _ " " Hint eq_refl),
               (all_digits_Contains _ " " Hfrac eq_refl). reflexivity. }
  rewrite Contains_append; cbn [append strings.Contains Ascii.eqb Bool.eqb andb orb].
  rewrite orb_true_r.
  unfold decimalStringToWei.
  rewrite (Split_at_sep _ _ _ (all_digits_Contains _ "." Hint eq_refl)).
  rewrite (Split_no_sep _ _ (all_digits_Contains _ "." Hfrac eq_refl)).
  match goal with
  | |- context [bind (if negb (intPart =? EmptyString)%string then ?a else ?b) ?f] =>
      replace (if negb (intPart =? EmptyString)%string then a else b)
        with (@Ok Z (scan_val 0 intPart * 10 ^ (3 * k)))
  end.
  2: { destruct intPart as [|c s]; [reflexivity|].
       cbn [String.eqb negb].
       unfold integerStringToWei.
       rewrite SetString_10_digits by (assumption || discriminate).
       rewrite Hmult. reflexivity. }
  cbn [bind]; rewrite Hmult.
  fold F; fold L.
  destruct (L =? 0) eqn:HL0.
  - cbn [bind].
    destruct (scan_val 0 intPart * 10 ^ (3 * k) <? 0) eqn:Hneg;
      [apply Z.ltb_lt in Hneg; nia|reflexivity].
  - apply Z.eqb_neq in HL0.
    assert (HLpos : 1 <= L) by (unfold L, strings.len in *; lia).
    assert (Hset : big.SetString F 0 = (scan_val 0 F, true)).
    { destruct F as [|c s] eqn:EF; [cbn in HLpos; lia|].
      apply SetString_0_digits; assumption. }
    rewrite Hset; cbn [fst].
    rewrite div_loop_eq.
    change (Z.of_nat (String.length F)) with L.
    assert (HpowL : 0 < 10 ^ L) by (apply Z.pow_pos_nonneg; lia).
    destruct (Z_le_gt_dec L (3 * k)) as [Hle|Hgt].
    + assert (Hsplit : 10 ^ (3 * k) = 10 ^ (3 * k - L) * 10 ^ L).
      { rewrite <- Z.pow_add_r by lia. f_equal; lia. }
      assert (Hq : 10 ^ (3 * k) / 10 ^ L = 10 ^ (3 * k - L)).
      { rewrite Hsplit at 1. apply Z.div_mul; lia. }
      assert (Hr : 10 ^ (3 * k) mod 10 ^ L = 0).
      { rewrite Hsplit at 1. apply Z.mod_mul; lia. }
      rewrite Hr, Hq; cbn [Z.eqb].
      assert (Hq0 : 0 < 10 ^ (3 * k - L)) by (apply Z.pow_pos_nonneg; lia).
      destruct (Z.sgn (10 ^ (3 * k - L)) =? 0) eqn:Hs.
      { apply Z.eqb_eq, Z.sgn_null_iff in Hs; lia. }
      cbn [bind].
      destruct (_ <? 0) eqn:Hneg; [apply Z.ltb_lt in Hneg; nia|reflexivity].
    + assert (Hlt : 10 ^ (3 * k) < 10 ^ L) by (apply Z.pow_lt_mono_r; lia).
      rewrite Z.div_small, Z.mod_small by lia.
      cbn [Z.sgn Z.eqb].
      destruct (10 ^ (3 * k) =? 0) eqn:E; [apply Z.eqb_eq in E; lia|].
      reflexivity.
Qed.

(** A bare input is never checked: whatever [SetString] leaves in the
    result is returned, unless it is negative. *)
Lemma parse_bare (input : string) :
  input <> EmptyString ->
  strings.Contains input " " = false ->
  parse input
  = let v := fst (big.SetString input 10) in
    if v <? 0 then Err "Value resulted in negative number of Wei" else Ok v.
Proof.
  intros Hne Hsp.
  unfold parse, StringToWei.
  apply String.eqb_neq in Hne; rewrite Hne, Hsp.
  reflexivity.
Qed.

(** A bare input that starts with digits and goes on with another byte is
    taken as the number in front: the failure of [SetString] is not seen. *)
Lemma parse_bare_prefix (num rest : string) (c : ascii) :
  all_digits num = true -> num <> EmptyString ->
  is_digit c = false -> c <> " "%char ->
  strings.Contains rest " " = false ->
  parse (num ++ String c rest) = Ok (scan_val 0 num).
Proof.
  intros Hdig Hne Hc Hsp Hrest.
  unfold parse, StringToWei.
  rewrite append_not_empty, Contains_append.
  rewrite (all_digits_Contains _ " " Hdig eq_refl).
  cbn [strings.Contains orb].
  apply Ascii.eqb_neq in Hsp; rewrite Hsp, Hrest; cbn [orb].
  assert (Hset : big.SetString (num ++ String c rest) 10 = (scan_val 0 num, false)).
  { destruct num as [|d num]; [congruence|].
    cbn [append]; unfold big.SetString.
    assert (Hd : is_digit d = true)
      by (cbn in Hdig; now apply andb_prop in Hdig as [? _]).
    assert (Hsign : (d =? "-")%char || (d =? "+")%char = false).
    { apply orb_false_intro; apply Ascii.eqb_neq; intros ->; discriminate Hd. }
    rewrite Hsign.
    apply orb_false_elim in Hsign as [-> _].
    unfold big.nat_scan; cbn [Z.eqb].
    change (String d (num ++ String c rest))
      with (String d num ++ String c rest).
    rewrite (scan_loop_digits false _ _ 0 0 big.PrevOther false Hdig).
    cbn [big.scan_loop]; rewrite andb_false_r.
    pose proof (digit_val_not_digit _ Hc).
    destruct (big.digit_val c >=? 10) eqn:Hge; [|lia].
    cbn [big.sc_count big.sc_val big.sc_rest big.sc_invalSep big.sc_prev
         big.is_sep orb].
    destruct (0 + strings.len (String d num) =? 0) eqn:E; [|reflexivity].
    apply Z.eqb_eq in E; unfold strings.len in E.
    cbn [String.length] in E; rewrite Nat2Z.inj_succ in E; lia. }
  rewrite Hset; cbn [fst bind].
  pose proof (scan_val_nonneg _ Hdig) as Hval.
  destruct (scan_val 0 num <? 0) eqn:Hneg; [apply Z.ltb_lt in Hneg; lia|].
  reflexivity.
Qed.

(** With an empty integer part in front of the point, an unknown unit is
    never reported: the input is taken as 0 when the fraction is all
    zeros, and the nil multiplier is divided otherwise. *)
Lemma parse_empty_integer_part_unknown_unit (frac unit : string) :
  strings.Contains frac " " = false ->
  strings.Contains frac "." = false ->
  strings.Contains unit " " = false ->
  is_err (UnitToMultiplier unit) = true ->
  parse ("." ++ frac ++ " " ++ unit)
  = if strings.len (strings.TrimRight frac "0") =? 0 then Ok 0 else Panic.
Proof.
  intros Hsp Hpt Hunit Herr.
  unfold parse.
  change ("." ++ frac ++ " " ++ unit) with (String "." frac ++ " " ++ unit).
  rewrite StringToWei_two_tokens by (cbn; assumption).
  cbn [strings.Contains Ascii.eqb Bool.eqb andb orb].
  unfold decimalStringToWei.
  cbn [strings.Split Ascii.eqb Bool.eqb andb].
  rewrite (Split_no_sep _ _ Hpt).
  cbn [String.eqb negb bind].
  destruct (UnitToMultiplier unit) as [m|msg|]; try discriminate Herr.
  destruct (strings.len (strings.TrimRight frac "0") =? 0); reflexivity.
Qed.

(** ** Round trip beyond the clean multiples *)

(** Whenever formatting without the standard restriction yields a string
    whose first digit after the decimal point, if there is one, is not 0,
    parsing that string gives the amount back. *)
Lemma roundtrip_plain_fraction (amount : Z) (s : string) :
  0 <= amount ->
  format amount false = Ok s ->
  fraction_starts_with_zero s = false ->
  parse s = Ok amount.
Proof.
  intros Ha Hfmt Hfrac.
  destruct (Z.eq_dec amount 0) as [->|Hnz].
  { vm_compute in Hfmt; injection Hfmt as <-; reflexivity. }
  destruct (step_down_done (Z.to_nat (Z.log2 amount)) amount 0)
    as (m & p & Hstep & Hp & Hval & Hstop).
  { rewrite Z2Nat.id by apply Z.log2_nonneg; lia. }
  rewrite Z.add_0_l in Hstep.
  assert (Hm : 1 <= m).
  { assert (0 < 1000 ^ p) by (apply Z.pow_pos_nonneg; lia). nia. }
  destruct (Text10_spec m ltac:(lia)) as (Hdig & Hdv & Hlen & Hhigh & Hlow).
  specialize (Hlow Hm).
  set (ds := big.Text10 m) in *.
  set (n := strings.len ds) in *.
  destruct (Z_le_gt_dec n 3) as [Hshort|Hlong].
  - (* no decimal point *)
    assert (Hm3 : m < 1000).
    { assert (10 ^ n <= 10 ^ 3) by (apply Z.pow_le_mono_r; lia).
      change (10 ^ 3) with 1000 in *. lia. }
    subst amount.
    rewrite (format_clean m p ltac:(lia) Hp) in Hfmt.
    destruct (Z_le_gt_dec p 10) as [Hle|Hgt];
      [|rewrite metricUnits_at_out_of_range in Hfmt by lia; discriminate].
    destruct (metricUnits_at_multiplier p ltac:(lia))
      as (label & Hlab & Hsp & Hpt & Hmult).
    rewrite Hlab in Hfmt; cbn [bind] in Hfmt; injection Hfmt as <-.
    pose proof (parse_integer_unit ds label _ Hdig
                  (Text10_not_empty m ltac:(lia)) Hsp Hmult) as Hparse.
    rewrite Hdv in Hparse.
    apply Hparse, Z.pow_nonneg; lia.
  - (* a decimal point *)
    set (groups := (n - 1) / 3).
    assert (Hg : 1 <= groups /\ 1 <= n - 3 * groups <= 3)
      by (unfold groups; Z.div_mod_to_equations; lia).
    set (dp := n - 3 * groups) in *.
    unfold format, WeiToString in Hfmt.
    rewrite WeiToString_layout_value, Hstep in Hfmt.
    rewrite (place_decimal_long m p (Z.gt_lt _ _ Hlong)) in Hfmt.
    fold ds n groups dp in Hfmt; cbn [snd] in Hfmt.
    destruct (Z_le_gt_dec (p + groups) 10) as [Hle|Hgt];
      [|rewrite metricUnits_at_out_of_range in Hfmt by lia; discriminate].
    destruct (metricUnits_at_multiplier (p + groups) ltac:(lia))
      as (label & Hlab & Hsp & Hpt & Hmult).
    rewrite Hlab in Hfmt; cbn [bind] in Hfmt; injection Hfmt as <-.
    destruct (slices ds dp ltac:(lia)) as [Hcat Hiplen].
    set (ip := strings.slice_to ds dp) in *.
    set (fp := strings.slice_from ds dp) in *.
    assert (Hparts : all_digits ip = true /\ all_digits fp = true).
    { rewrite <- Hcat, all_digits_append in Hdig. now apply andb_prop. }
    destruct Hparts as [Hip Hfp].
    assert (Hfplen : strings.len fp = 3 * groups).
    { assert (H : strings.len (ip ++ fp) = n) by (now rewrite Hcat).
      unfold strings.len in *. rewrite length_append in H. lia. }
    assert (Hmval : m = scan_val 0 ip * 10 ^ (3 * groups) + scan_val 0 fp).
    { rewrite <- Hdv, <- Hcat, scan_val_append, scan_val_shift, Hfplen.
      reflexivity. }
    destruct (TrimRight_value fp Hfp) as [HFlen HFval].
    pose proof (TrimRight_all_digits fp "0" Hfp) as HFdig.
    set (F := strings.TrimRight fp "0") in *.
    assert (HFne : F <> EmptyString).
    { intro HF; rewrite HF in HFval.
      change (scan_val 0 EmptyString) with 0 in HFval; rewrite Z.mul_0_l in HFval.
      rewrite HFval, Z.add_0_r in Hmval.
      assert (Hthousand : m mod 1000 = 0).
      { rewrite Hmval.
        replace (3 * groups) with (3 * (groups - 1) + 3) by lia.
        rewrite Z.pow_add_r by lia. change (10 ^ 3) with 1000.
        rewrite Z.mul_assoc. apply Z.mod_mul; lia. }
      assert (Hbig : 1000 <= m).
      { assert (10 ^ 3 <= 10 ^ (n - 1)) by (apply Z.pow_le_mono_r; lia).
        change (10 ^ 3) with 1000 in *. lia. }
      unfold thousand, zero in Hstop.
      rewrite Hthousand, Z.geb_leb in Hstop; cbn [Z.eqb] in Hstop.
      rewrite andb_true_r in Hstop; apply Z.leb_gt in Hstop. lia. }
    assert (Htrim : strings.TrimRight (ip ++ String "." fp) "0"
                    = ip ++ String "." F).
    { assert (Hdot : strings.TrimRight (String "." fp) "0" = String "." F).
      { rewrite TrimRight_cons; fold F. destruct F; [congruence|reflexivity]. }
      rewrite TrimRight_append by (rewrite Hdot; discriminate).
      now rewrite Hdot. }
    rewrite Htrim in Hfrac |- *.
    destruct (TrimRight_head fp "0" HFne) as (c & t & F' & Hfpc & HFc).
    fold F in HFc.
    assert (Hc : (c =? "0")%char = false).
    { unfold fraction_starts_with_zero in Hfrac.
      rewrite append_assoc in Hfrac.
      change (String "." F ++ String " " label)
        with (String "." (F ++ String " " label)) in Hfrac.
      rewrite (Split_at_sep _ _ _ (all_digits_Contains _ "." Hip eq_refl))
        in Hfrac.
      rewrite Split_no_sep in Hfrac.
      - rewrite HFc in Hfrac. exact Hfrac.
      - rewrite Contains_append, (all_digits_Contains _ "." HFdig eq_refl).
        cbn [strings.Contains Ascii.eqb Bool.eqb andb orb]. exact Hpt. }
    rewrite (pow_1000 (p + groups) ltac:(lia)) in Hmult.
    pose proof (parse_decimal ip F label (p + groups) Hip HFdig Hsp
                  ltac:(lia) Hmult) as Hpd.
    cbv zeta in Hpd; unfold F in Hpd at 1 2 3 4 5 6.
    rewrite !TrimRight_idem in Hpd; fold F in Hpd.
    rewrite HFc in Hpd at 1; specialize (Hpd Hc).
    assert (Hs : (ip ++ String "." F) ++ String " " label
                 = ip ++ "." ++ F ++ " " ++ label)
      by (rewrite append_assoc; reflexivity).
    rewrite Hs, Hpd.
    set (L := strings.len F) in *.
    assert (HL : 1 <= L).
    { unfold L; rewrite HFc, len_cons. unfold strings.len; lia. }
    destruct (L =? 0) eqn:EL; [apply Z.eqb_eq in EL; lia|].
    set (k := 3 * (p + groups)) in *.
    assert (Hsplit : 10 ^ k = 10 ^ (k - L) * 10 ^ L).
    { rewrite <- Z.pow_add_r by lia. f_equal; lia. }
    assert (HpowL : 0 < 10 ^ L) by (apply Z.pow_pos_nonneg; lia).
    assert (Hq : 10 ^ k / 10 ^ L = 10 ^ (k - L)).
    { rewrite Hsplit at 1. apply Z.div_mul; lia. }
    assert (Hr : 10 ^ k mod 10 ^ L = 0).
    { rewrite Hsplit at 1. apply Z.mod_mul; lia. }
    rewrite Hr, Hq; cbn [Z.eqb].
    f_equal.
    rewrite Hval, Hmval, HFval, Hfplen, (pow_1000 p Hp).
    fold L.
    replace k with (3 * groups + 3 * p) by lia.
    replace (3 * groups + 3 * p - L) with (3 * groups - L + 3 * p) by lia.
    rewrite !Z.pow_add_r by lia.
    ring.
Qed.

(** * The claims *)

(** ** Round trip *)

(** C1, as the code has it.  Round trip on the clean multiples
    [m * 1000^p], [m < 1000], below 10^33, that is up to the last unit of
    the table: formatting without the standard restriction yields a string,
    and parsing that string gives the amount back. *)
Theorem roundtrip_clean_multiples (amount : Z) :
  clean_multiple amount ->
  amount < 10 ^ 33 ->
  (exists s, format amount false = Ok s /\ parse s = Ok amount) /\
  roundtrip amount = Ok amount.
Proof.
  intros (m & p & Hm & Hp & ->) Hlt.
  unfold roundtrip.
  destruct (Z.eq_dec m 0) as [->|Hnz].
  { rewrite Z.mul_0_l; split; [eexists; split|]; reflexivity. }
  assert (Hm1 : 1 <= m < 1000) by lia.
  assert (Hp10 : p <= 10).
  { destruct (Z_le_gt_dec p 10) as [|Hgt]; [assumption|exfalso].
    assert (1000 ^ 11 <= 1000 ^ p) by (apply Z.pow_le_mono_r; lia).
    change (1000 ^ 11) with (10 ^ 33) in *.
    nia. }
  rewrite (format_clean m p Hm1 Hp).
  destruct (Text10_spec m ltac:(lia)) as (Hdig & Hval & _).
  pose proof (Text10_not_empty m ltac:(lia)) as Hne.
  destruct (metricUnits_at_multiplier p ltac:(lia))
    as (label & -> & Hsp & _ & Hmult).
  pose proof (parse_integer_unit _ _ _ Hdig Hne Hsp Hmult) as Hparse.
  rewrite Hval in Hparse.
  specialize (Hparse ltac:(apply Z.pow_nonneg; lia)).
  cbn [bind]; split; [eexists; split; [reflexivity|]|]; exact Hparse.
Qed.

Lemma roundtrip_clean_multiples_witness :
  clean_multiple 5000 /\ roundtrip 5000 = Ok 5000.
Proof.
  assert (H : clean_multiple 5000).
  { exists 5, 1. repeat split; try lia; reflexivity. }
  split; [exact H|].
  apply (roundtrip_clean_multiples 5000 H); reflexivity.
Defined.

(** C1 does not hold as stated: 10^33 is the clean multiple 1 * 1000^11,
    one tier beyond the last unit label; formatting it yields no string,
    so nothing is parsed back. *)
Lemma roundtrip_beyond_unit_table :
  clean_multiple (10 ^ 33) /\
  format (10 ^ 33) false = Panic /\
  roundtrip (10 ^ 33) <> Ok (10 ^ 33).
Proof.
  split.
  { exists 1, 11. repeat split; try lia; reflexivity. }
  split; [vm_compute; reflexivity|].
  vm_compute; discriminate.
Qed.

(** Round trip and C2: 1080000000000000000 is shown as "1.08 Ether", and
    that string is parsed to 1000000000000000000. *)
Lemma roundtrip_octal_fraction :
  format 1080000000000000000 false = Ok "1.08 Ether" /\
  roundtrip 1080000000000000000 = Ok 1000000000000000000.
Proof. split; vm_compute; reflexivity. Qed.

(** ** Parsing *)

(** C2 (the code at its failing input).  The trimmed fraction is read with
    base 0, so a fraction that starts with 0 is read as an octal number:
    "012" counts as 10 and "08" as 0.  The examples of the claim come out
    as it says. *)
Theorem parse_fraction_octal :
  big.SetString "012" 0 = (10, true) /\
  parse "1.012 ether" = Ok 1010000000000000000 /\
  big.SetString "08" 0 = (0, false) /\
  parse "1.08 ether" = Ok 1000000000000000000 /\
  parse "1.5 ether" = Ok 1500000000000000000 /\
  parse "0.000000000000000001 ether" = Ok 1 /\
  parse "0.1 wei" = Err "Value resulted in fractional number of Wei".
Proof. repeat split; vm_compute; reflexivity. Qed.

(** C3 (the code at its failing input).  With an empty integer part the unit
    is looked up only by the call whose error is dropped: ".5 bogus" panics
    on the nil multiplier and ".0 bogus" is accepted as 0.  With an integer
    part the unknown unit is reported. *)
Theorem parse_unknown_unit_empty_integer_part :
  UnitToMultiplier "bogus" = Err "Unknown unit bogus" /\
  parse ".5 bogus" = Panic /\
  parse ".0 bogus" = Ok 0 /\
  parse "5 bogus" = Err "Failed to parse unit of 5 bogus" /\
  parse "1.5 bogus" = Err "Failed to parse 1.5 bogus".
Proof. repeat split; vm_compute; reflexivity. Qed.

(** C8, as the code has it.  With one space between a numeric token and a
    unit token: a numeric token without a decimal point that is not an
    optionally signed run of digits is rejected, and so is a numeric token
    whose text before the first decimal point is not empty and not such a
    run.  A sign is part of the integer syntax. *)
Theorem parse_rejects_bad_number (num unit : string) :
  strings.Contains num " " = false ->
  strings.Contains unit " " = false ->
  (strings.Contains num "." = false ->
   signed_digits num = false ->
   parse (num ++ " " ++ unit)
   = Err ("Failed to parse numeric value of " ++ num ++ " " ++ unit)) /\
  (forall intPart frac : string,
      num = intPart ++ "." ++ frac ->
      strings.Contains intPart "." = false ->
      intPart <> EmptyString ->
      signed_digits intPart = false ->
      parse (num ++ " " ++ unit) = Err ("Failed to parse " ++ num ++ " " ++ unit)).
Proof.
  intros Hnum Hunit.
  unfold parse; rewrite (StringToWei_two_tokens _ _ Hnum Hunit).
  split.
  - intros Hpoint Hbad.
    rewrite Hpoint, (integerStringToWei_bad_number _ _ _ Hbad).
    reflexivity.
  - intros intPart frac Hsplit Hint Hne Hbad.
    assert (Hpoint : strings.Contains num "." = true).
    { rewrite Hsplit, Contains_append; cbn.
      now rewrite orb_true_r. }
    rewrite Hpoint.
    unfold decimalStringToWei.
    rewrite Hsplit at 1.
    change ("." ++ frac) with (String "." frac).
    rewrite (Split_at_sep _ _ _ Hint).
    destruct (Split_cons frac ".") as (parts1 & rest & ->).
    apply String.eqb_neq in Hne; rewrite Hne; cbn [negb].
    rewrite (integerStringToWei_bad_number _ _ _ Hbad).
    reflexivity.
Qed.

Lemma parse_rejects_bad_number_witness :
  parse "abc ether" = Err "Failed to parse numeric value of abc ether" /\
  parse "1x.5 ether" = Err "Failed to parse 1x.5 ether".
Proof.
  split.
  - apply (proj1 (parse_rejects_bad_number "abc" "ether" eq_refl eq_refl));
      reflexivity.
  - apply (proj2 (parse_rejects_bad_number "1x.5" "ether" eq_refl eq_refl)
                 "1x" "5"); try reflexivity; discriminate.
Defined.

(** C8 does not hold as stated: "+5" is neither an [INTEGER] nor a [DECIMAL]
    of the input grammar, and "+5 ether" is parsed to a value. *)
Lemma parse_accepts_signed_number :
  valid_number "+5" = false /\
  parse "+5 ether" = Ok 5000000000000000000.
Proof. split; reflexivity. Qed.

(** C9 (the code at its failing input).  Without a space the whole input
    goes to [SetString], whose success flag is not looked at: "1.5" leaves
    the digits before the point in the result, which is returned. *)
Theorem parse_bare_decimal :
  big.SetString "1.5" 10 = (1, false) /\ parse "1.5" = Ok 1.
Proof. split; reflexivity. Qed.

(** ** Formatting *)

(** C4 (the code at its failing input).  For 10^33 the tier reduction of
    step 1 ends at tier 11; [metricUnits] has the indices 0 to 10, and the
    function panics on the index instead of returning an error. *)
Theorem format_tier_out_of_range :
  WeiToString_layout (10 ^ 33) false = (1, "1", 11) /\
  metricUnits_at 11 = Panic /\
  format (10 ^ 33) false = Panic.
Proof. repeat split; vm_compute; reflexivity. Qed.

(** C5 (the code at its failing input).  Step 1 divides through the caller's
    pointer: after formatting 1000 the caller's big integer holds 1. *)
Theorem WeiToString_overwrites_input :
  step_down (Z.to_nat (Z.log2 1000)) (mkInts 1000 1000) 0 = (mkInts 1 1, 1) /\
  WeiToString 1000 false = (1, Ok "1 KWei") /\
  WeiToString 1000 true = (1, Ok "1 KWei").
Proof. repeat split; reflexivity. Qed.

(** C6. In standard mode the final tier of every amount is 0, 1, 2, 3 or 6:
    formatting succeeds and the label is one of Wei, KWei, MWei, GWei and
    Ether, never Microether or Milliether.  Amounts up to 999999999999 are
    shown in Wei, KWei, MWei or GWei, anything higher in Ether; 10^15 is
    shown as 0.001 Ether. *)
Theorem format_standard_units :
  (forall amount : Z,
      exists outputValue postfixPos label,
        WeiToString_layout amount true
        = (fst (WeiToString amount true), outputValue, postfixPos) /\
        In postfixPos [0; 1; 2; 3; 6] /\
        metricUnits_at postfixPos = Ok label /\
        format amount true = Ok (outputValue ++ " " ++ label) /\
        In label ["Wei"; "KWei"; "MWei"; "GWei"; "Ether"] /\
        label <> "Microether" /\ label <> "Milliether" /\
        (0 <= amount <= 999999999999 -> 0 <= postfixPos <= 3) /\
        (999999999999 < amount -> postfixPos = 6)) /\
  format (10 ^ 15) true = Ok "0.001 Ether".
Proof.
  split; [|reflexivity].
  intro amount.
  assert (Hmag :
            (0 <= amount <= 999999999999 ->
             0 <= snd (WeiToString_layout amount true) <= 3) /\
            (999999999999 < amount -> snd (WeiToString_layout amount true) = 6)).
  { destruct (Z_lt_le_dec amount 1) as [Hlt|Hge].
    - split; [|intro; lia].
      intro H; assert (amount = 0) by lia; subst amount.
      change (snd (WeiToString_layout 0 true)) with 0; lia.
    - destruct (WeiToString_tier_magnitude amount true Hge)
        as (D & HD & Ht & HK).
      specialize (HK 3 ltac:(lia)).
      change (10 ^ (3 * (3 + 1))) with 1000000000000 in HK.
      rewrite Ht, andb_true_r.
      destruct (D >? 3) eqn:E; rewrite Z.gtb_ltb in E;
        [apply Z.ltb_lt in E|apply Z.ltb_ge in E]; lia. }
  pose proof (WeiToString_layout_tier amount true) as Ht.
  pose proof (step_down_tier (Z.to_nat (Z.log2 amount)) amount 0) as Hp.
  destruct (step_down_value (Z.to_nat (Z.log2 amount)) amount 0) as [reduced p].
  cbn [snd] in Hp.
  pose proof (desired_tier_lower p (strings.len (big.Text10 reduced)) true Hp
                (Nat2Z.is_nonneg _)) as Hd.
  unfold format, WeiToString.
  destruct (WeiToString_layout amount true) as [[input' outputValue] tier].
  cbn [snd fst] in *.
  assert (Htier : tier = 0 \/ tier = 1 \/ tier = 2 \/ tier = 3 \/ tier = 6).
  { subst tier. revert Hd. unfold desired_tier.
    rewrite andb_true_r.
    match goal with |- context [if ?d >? 3 then 6 else _] =>
      destruct (d >? 3) eqn:Hgt; [lia|] end.
    rewrite Z.gtb_ltb, Z.ltb_ge in Hgt. lia. }
  clear Ht Hd.
  exists outputValue, tier.
  destruct Htier as [-> | [-> | [-> | [-> | ->]]]];
    eexists; (split; [reflexivity|]); cbn;
    (repeat split; try discriminate; try tauto; try lia).
Qed.

Lemma format_standard_units_witness :
  exists outputValue,
    WeiToString_layout 1000000000000000 true = (1, outputValue, 6).
Proof.
  destruct (proj1 format_standard_units 1000000000000000)
    as (outputValue & postfixPos & label & Hlay & _ & _ & _ & _ & _ & _ & _ & Hbig).
  rewrite (Hbig ltac:(lia)) in Hlay.
  exists outputValue; exact Hlay.
Defined.

(** C10. Formatting zero without the standard restriction succeeds with
    exactly "0 Wei": one digit, the base-unit label, no decimal point, no
    tier reduction. *)
Theorem format_zero :
  step_down (Z.to_nat (Z.log2 0)) (mkInts 0 0) 0 = (mkInts 0 0, 0) /\
  big.Text10 0 = "0" /\
  WeiToString_layout 0 false = (0, "0", 0) /\
  metricUnits_at 0 = Ok "Wei" /\
  format 0 false = Ok "0 Wei".
Proof. repeat split; reflexivity. Qed.

(** ** The unit table *)

(** C7. The multiplier lookup is an exact match of the lower-cased unit name
    against the fixed aliases, hence case-insensitive; the empty string and
    "wei" give 1; every recognised unit gives a power of ten [10^(3k)] with
    [k] from 0 to 10: kwei 10^3, mwei 10^6, gwei 10^9, microether 10^12,
    milliether 10^15, ether 10^18, then kiloether, megaether, gigaether
    and teraether at 10^21, 10^24, 10^27 and 10^30; and parsing "1 ETHER"
    gives what parsing "1 ether" gives. *)
Theorem UnitToMultiplier_table :
  (forall unit, UnitToMultiplier unit = multiplierFor unit) /\
  (forall u v m, strings.ToLower u = strings.ToLower v ->
                 UnitToMultiplier u = Ok m -> UnitToMultiplier v = Ok m) /\
  UnitToMultiplier EmptyString = Ok 1 /\
  UnitToMultiplier "wei" = Ok 1 /\
  (forall unit m, UnitToMultiplier unit = Ok m ->
                  exists k, 0 <= k <= 10 /\ m = 10 ^ (3 * k)) /\
  map UnitToMultiplier
      ["kwei"; "mwei"; "gwei"; "microether"; "milliether"; "ether";
       "kiloether"; "megaether"; "gigaether"; "teraether"]
  = map Ok [10 ^ 3; 10 ^ 6; 10 ^ 9; 10 ^ 12; 10 ^ 15; 10 ^ 18;
            10 ^ 21; 10 ^ 24; 10 ^ 27; 10 ^ 30] /\
  parse "1 ETHER" = parse "1 ether" /\
  parse "1 ether" = Ok (10 ^ 18).
Proof.
  split; [exact UnitToMultiplier_multiplierFor|].
  split.
  { intros u v m Hcase.
    rewrite !UnitToMultiplier_multiplierFor; unfold multiplierFor.
    rewrite Hcase.
    destruct (tier_of (strings.ToLower v) UnitTable); [tauto|discriminate]. }
  split; [reflexivity|].
  split; [reflexivity|].
  split.
  { intros unit m.
    rewrite UnitToMultiplier_multiplierFor; unfold multiplierFor.
    destruct (tier_of (strings.ToLower unit) UnitTable) as [k|] eqn:Hk;
      [|discriminate].
    intro H; inversion H; subst.
    exists k; split; [eapply tier_of_range; eassumption|reflexivity]. }
  split; [reflexivity|].
  split; reflexivity.
Qed.

Lemma UnitToMultiplier_table_witness :
  UnitToMultiplier "Ether" = Ok (10 ^ 18).
Proof.
  destruct UnitToMultiplier_table as (_ & Hcase & _).
  apply (Hcase "ether" "Ether"); reflexivity.
Defined.

(** * Further properties of [conversion.go] *)

(** ** Helper lemmas *)

Lemma lower_byte_space (c : ascii) :
  (strings.lower_byte c =? " ")%char = (c =? " ")%char.
Proof.
  destruct c as [[] [] [] [] [] [] [] []]; reflexivity.
Qed.

Lemma Contains_ToLower_space (s : string) :
  strings.Contains (strings.ToLower s) " " = strings.Contains s " ".
Proof.
  induction s as [|c s IH]; [reflexivity|].
  cbn [strings.ToLower strings.Contains].
  now rewrite lower_byte_space, IH.
Qed.

Lemma tier_of_no_space (alias : string) (k : Z) :
  tier_of alias UnitTable = Some k -> strings.Contains alias " " = false.
Proof.
  unfold UnitTable; cbn [tier_of].
  repeat match goal with
         | |- context [String.eqb alias ?a] =>
             destruct (String.eqb_spec alias a); [subst; reflexivity|]
         end.
  discriminate.
Qed.

Lemma known_unit (unit : string) (k : Z) :
  tier_of (strings.ToLower unit) UnitTable = Some k ->
  strings.Contains unit " " = false /\
  0 <= k <= 10 /\
  UnitToMultiplier unit = Ok (10 ^ (3 * k)).
Proof.
  intro Hk.
  split; [|split].
  - rewrite <- Contains_ToLower_space. eapply tier_of_no_space; eassumption.
  - eapply tier_of_range; eassumption.
  - rewrite UnitToMultiplier_multiplierFor; unfold multiplierFor.
    now rewrite Hk.
Qed.


Lemma SetString_10_negative (num : string) :
  all_digits num = true -> num <> EmptyString ->
  big.SetString (String "-" num) 10 = (- scan_val 0 num, true).
Proof.
  intros Hdig Hne.
  unfold big.SetString.
  cbn [Ascii.eqb Bool.eqb andb orb].
  now rewrite nat_scan_digits by assumption.
Qed.

Lemma length_Split (s : string) (sep : ascii) :
  List.length (strings.Split s sep) = S (count_byte sep s).
Proof.
  induction s as [|c s IH]; [reflexivity|].
  cbn [strings.Split count_byte].
  destruct (c =? sep)%char.
  - cbn [List.length]. now rewrite IH.
  - destruct (strings.Split s sep) as [|piece rest]; [discriminate IH|].
    cbn [List.length] in *. lia.
Qed.

Lemma count_byte_Contains (s : string) (sep : ascii) :
  (1 <= count_byte sep s)%nat -> strings.Contains s sep = true.
Proof.
  induction s as [|c s IH]; cbn [count_byte strings.Contains]; [lia|].
  destruct (c =? sep)%char; [reflexivity|].
  intro H; apply IH; lia.
Qed.

Lemma all_digits_zeros (n : nat) :
  all_digits (strings.Repeat_nat "000" n) = true.
Proof. induction n as [|n IH]; [reflexivity|exact IH]. Qed.

Lemma len_zeros (n : nat) :
  strings.len (strings.Repeat_nat "000" n) = 3 * Z.of_nat n.
Proof.
  unfold strings.len.
  induction n as [|n IH]; [reflexivity|].
  cbn [strings.Repeat_nat]; rewrite length_append.
  cbn [String.length]; lia.
Qed.

Lemma scan_val_zeros (n : nat) : scan_val 0 (strings.Repeat_nat "000" n) = 0.
Proof.
  induction n as [|n IH]; [reflexivity|].
  cbn [strings.Repeat_nat append scan_val].
  change (big.digit_val "0") with 0.
  exact IH.
Qed.

(** ** Parsing *)

(** X1. A bare run of decimal digits is the number it denotes, leading
    zeros included; in particular the decimal numeral of every
    non-negative number is parsed back to that number. *)
Theorem StringToWei_bare_digits :
  (forall s, all_digits s = true -> s <> EmptyString ->
             StringToWei s = Ok (scan_val 0 s)) /\
  (forall n, 0 <= n -> StringToWei (big.Text10 n) = Ok n).
Proof.
  assert (H : forall s, all_digits s = true -> s <> EmptyString ->
                        StringToWei s = Ok (scan_val 0 s)).
  { intros s Hdig Hne.
    pose proof (parse_bare s Hne (all_digits_Contains _ " " Hdig eq_refl)) as Hp.
    unfold parse in Hp; rewrite Hp.
    rewrite (SetString_10_digits _ Hdig Hne); cbn [fst].
    pose proof (scan_val_nonneg _ Hdig).
    destruct (scan_val 0 s <? 0) eqn:E; [apply Z.ltb_lt in E; lia|reflexivity]. }
  split; [exact H|].
  intros n Hn.
  destruct (Text10_spec n Hn) as (Hdig & Hval & _).
  rewrite (H _ Hdig (Text10_not_empty n Hn)), Hval.
  reflexivity.
Qed.

Lemma StringToWei_bare_digits_witness :
  StringToWei "0042" = Ok 42 /\ StringToWei (big.Text10 1000) = Ok 1000.
Proof.
  split.
  - apply (proj1 StringToWei_bare_digits "0042"); [reflexivity|discriminate].
  - apply (proj2 StringToWei_bare_digits 1000); lia.
Defined.

(** X2. A run of decimal digits followed by one space and an alias of the
    unit table, in any case, is the number times the multiplier of the
    alias. *)
Theorem StringToWei_integer_unit (num unit : string) (k : Z) :
  all_digits num = true -> num <> EmptyString ->
  tier_of (strings.ToLower unit) UnitTable = Some k ->
  StringToWei (num ++ " " ++ unit) = Ok (scan_val 0 num * 10 ^ (3 * k)).
Proof.
  intros Hdig Hne Hk.
  destruct (known_unit unit k Hk) as (Hsp & Hrange & Hmult).
  apply (parse_integer_unit num unit _ Hdig Hne Hsp Hmult).
  apply Z.pow_nonneg; lia.
Qed.

Lemma StringToWei_integer_unit_witness :
  StringToWei "20 GWei" = Ok 20000000000.
Proof.
  apply (StringToWei_integer_unit "20" "GWei" 3); [reflexivity|discriminate|reflexivity].
Defined.



(** X4. A number with a decimal point, digits only on both sides, whose
    digits after the point do not start with 0 once the trailing zeros are
    dropped, in a unit of multiplier [10^(3k)]: with [F] the number those
    [L] digits denote, the result is
    [integerPart * multiplier + multiplier / 10^L * F] when [10^L] divides
    the multiplier, and the error "Value resulted in fractional number of
    Wei" when it does not.  An empty integer part counts as 0. *)
Theorem StringToWei_decimal (intPart frac unit : string) (k : Z) :
  all_digits intPart = true ->
  all_digits frac = true ->
  tier_of (strings.ToLower unit) UnitTable = Some k ->
  let F := strings.TrimRight frac "0" in
  let L := strings.len F in
  match F with String c _ => (c =? "0")%char | EmptyString => false end = false ->
  StringToWei (intPart ++ "." ++ frac ++ " " ++ unit)
  = if L =? 0 then Ok (scan_val 0 intPart * 10 ^ (3 * k))
    else if L <=? 3 * k then
           Ok (scan_val 0 intPart * 10 ^ (3 * k)
               + 10 ^ (3 * k - L) * scan_val 0 F)
    else Err "Value resulted in fractional number of Wei".
Proof.
  intros Hint Hfrac Hk F L Hlead.
  destruct (known_unit unit k Hk) as (Hsp & Hrange & Hmult).
  pose proof (parse_decimal intPart frac unit k Hint Hfrac Hsp
                ltac:(lia) Hmult) as Hp.
  cbv zeta in Hp; fold F in Hp; fold L in Hp.
  unfold parse in Hp; rewrite (Hp Hlead).
  destruct (L =? 0) eqn:HL0; [reflexivity|].
  assert (HL : 0 <= L) by (unfold L, strings.len; lia).
  assert (HpowL : 0 < 10 ^ L) by (apply Z.pow_pos_nonneg; lia).
  destruct (L <=? 3 * k) eqn:Hle;
    [apply Z.leb_le in Hle|apply Z.leb_gt in Hle].
  - assert (Hsplit : 10 ^ (3 * k) = 10 ^ (3 * k - L) * 10 ^ L).
    { rewrite <- Z.pow_add_r by lia. f_equal; lia. }
    assert (Hq : 10 ^ (3 * k) / 10 ^ L = 10 ^ (3 * k - L)).
    { rewrite Hsplit at 1. apply Z.div_mul; lia. }
    assert (Hr : 10 ^ (3 * k) mod 10 ^ L = 0).
    { rewrite Hsplit at 1. apply Z.mod_mul; lia. }
    rewrite Hr, Hq. reflexivity.
  - assert (Hlt : 10 ^ (3 * k) < 10 ^ L) by (apply Z.pow_lt_mono_r; lia).
    assert (Hpos : 0 < 10 ^ (3 * k)) by (apply Z.pow_pos_nonneg; lia).
    rewrite Z.mod_small by lia.
    destruct (10 ^ (3 * k) =? 0) eqn:E; [apply Z.eqb_eq in E; lia|].
    reflexivity.
Qed.

Lemma StringToWei_decimal_witness :
  StringToWei "1.50 ether" = Ok 1500000000000000000 /\
  StringToWei ".5 kwei" = Ok 500 /\
  StringToWei "0.1234 kwei" = Err "Value resulted in fractional number of Wei".
Proof.
  split; [|split].
  - apply (StringToWei_decimal "1" "50" "ether" 6); reflexivity.
  - apply (StringToWei_decimal EmptyString "5" "kwei" 1); reflexivity.
  - apply (StringToWei_decimal "0" "1234" "kwei" 1); reflexivity.
Defined.

(** X5. An input with two or more spaces is refused as of unknown format,
    whatever stands between the spaces. *)
Theorem StringToWei_too_many_tokens (input : string) :
  (2 <= count_byte " " input)%nat ->
  StringToWei input = Err ("Unknown format of " ++ input).
Proof.
  intro Hcount.
  unfold StringToWei.
  destruct input as [|c s]; [cbn in Hcount; lia|].
  cbn [String.eqb].
  rewrite (count_byte_Contains _ " ") by lia.
  cbv zeta; unfold strings.len_list.
  rewrite length_Split.
  destruct (Z.of_nat (S (count_byte " " (String c s))) =? 2) eqn:E;
    [apply Z.eqb_eq in E; lia|].
  reflexivity.
Qed.

Lemma StringToWei_too_many_tokens_witness :
  StringToWei "5 5 ether" = Err "Unknown format of 5 5 ether".
Proof.
  apply (StringToWei_too_many_tokens "5 5 ether"); cbn; lia.
Defined.

(** X6. No negative number of Wei is ever returned; a minus sign in front
    of a positive number with a known unit, or of a bare positive number,
    gives the error "Value resulted in negative number of Wei". *)
Theorem StringToWei_never_negative :
  (forall input v, StringToWei input = Ok v -> 0 <= v) /\
  (forall num unit k,
      all_digits num = true -> 0 < scan_val 0 num ->
      tier_of (strings.ToLower unit) UnitTable = Some k ->
      StringToWei ("-" ++ num ++ " " ++ unit)
      = Err "Value resulted in negative number of Wei") /\
  (forall num,
      all_digits num = true -> 0 < scan_val 0 num ->
      StringToWei ("-" ++ num) = Err "Value resulted in negative number of Wei").
Proof.
  split; [|split].
  - intros input v.
    unfold StringToWei.
    destruct (input =? EmptyString)%string; [discriminate|].
    match goal with |- bind ?m _ = _ -> _ => destruct m as [r| |] end;
      cbn [bind]; try discriminate.
    destruct (r <? 0) eqn:E; [discriminate|].
    intro H; injection H as <-. now apply Z.ltb_ge.
  - intros num unit k Hdig Hpos Hk.
    destruct (known_unit unit k Hk) as (Hsp & Hrange & Hmult).
    assert (Hne : num <> EmptyString) by (intros ->; cbn in Hpos; lia).
    change ("-" ++ num ++ " " ++ unit) with (String "-" num ++ " " ++ unit).
    rewrite StringToWei_two_tokens;
      [|cbn; now rewrite (all_digits_Contains _ " " Hdig eq_refl)|exact Hsp].
    cbn [strings.Contains Ascii.eqb Bool.eqb andb orb].
    rewrite (all_digits_Contains _ "." Hdig eq_refl).
    unfold integerStringToWei.
    rewrite (SetString_10_negative _ Hdig Hne), Hmult; cbn [negb bind].
    assert (Hpow : 0 < 10 ^ (3 * k)) by (apply Z.pow_pos_nonneg; lia).
    destruct (- scan_val 0 num * 10 ^ (3 * k) <? 0) eqn:E; [reflexivity|].
    apply Z.ltb_ge in E; nia.
  - intros num Hdig Hpos.
    assert (Hne : num <> EmptyString) by (intros ->; cbn in Hpos; lia).
    change ("-" ++ num) with (String "-" num).
    pose proof (parse_bare (String "-" num)) as Hp.
    unfold parse in Hp; rewrite Hp;
      [|discriminate|cbn; now rewrite (all_digits_Contains _ " " Hdig eq_refl)].
    rewrite (SetString_10_negative _ Hdig Hne); cbn [fst].
    destruct (- scan_val 0 num <? 0) eqn:E; [reflexivity|].
    apply Z.ltb_ge in E; lia.
Qed.

Lemma StringToWei_never_negative_witness :
  0 <= 1500 /\
  StringToWei "-5 ether" = Err "Value resulted in negative number of Wei" /\
  StringToWei "-5" = Err "Value resulted in negative number of Wei".
Proof.
  destruct StringToWei_never_negative as (H1 & H2 & H3).
  split; [|split].
  - apply (H1 "1.5 kwei"); reflexivity.
  - apply (H2 "5" "ether" 6); [reflexivity|reflexivity|reflexivity].
  - apply (H3 "5"); reflexivity.
Defined.

(** ** Formatting *)

(** X7. The eleven unit labels of the formatter are aliases the parser
    knows, the label of tier [t] with the multiplier [1000^t]: a run of
    digits followed by a space and the label is parsed to the number times
    [1000^t]. *)
Theorem metricUnits_are_parsed (tier : Z) :
  0 <= tier <= 10 ->
  exists label,
    metricUnits_at tier = Ok label /\
    UnitToMultiplier label = Ok (1000 ^ tier) /\
    forall num, all_digits num = true -> num <> EmptyString ->
                StringToWei (num ++ " " ++ label)
                = Ok (scan_val 0 num * 1000 ^ tier).
Proof.
  intro Htier.
  destruct (metricUnits_at_multiplier tier Htier)
    as (label & Hlab & Hsp & _ & Hmult).
  exists label; split; [exact Hlab|split; [exact Hmult|]].
  intros num Hdig Hne.
  apply (parse_integer_unit num label _ Hdig Hne Hsp Hmult).
  apply Z.pow_nonneg; lia.
Qed.

Lemma metricUnits_are_parsed_witness :
  exists label,
    metricUnits_at 6 = Ok label /\
    UnitToMultiplier label = Ok (1000 ^ 6) /\
    forall num, all_digits num = true -> num <> EmptyString ->
                StringToWei (num ++ " " ++ label) = Ok (scan_val 0 num * 1000 ^ 6).
Proof. apply (metricUnits_are_parsed 6); lia. Defined.

(** X8. Without the standard restriction a non-negative amount is turned
    into a string exactly when it is below 10^33; from 10^33 on the index
    into the unit labels is out of range and the function panics. *)
Theorem WeiToString_plain_domain (amount : Z) :
  0 <= amount ->
  ((exists s, format amount false = Ok s) <-> amount < 10 ^ 33) /\
  (10 ^ 33 <= amount -> format amount false = Panic).
Proof.
  intro Ha.
  destruct (format_domain amount Ha) as [Hlow Hhigh].
  split; [split|exact Hhigh].
  - intros [s Hs].
    destruct (Z_lt_le_dec amount (10 ^ 33)) as [|Hge]; [assumption|].
    rewrite (Hhigh Hge) in Hs; discriminate.
  - exact Hlow.
Qed.

Lemma WeiToString_plain_domain_witness :
  (exists s, format 999 false = Ok s) <-> 999 < 10 ^ 33.
Proof. apply (WeiToString_plain_domain 999); lia. Defined.

(** X9. Without the standard restriction the unit follows the magnitude: an
    amount from [1000^K] up to, but not including, [1000^(K+1)] is shown
    with the label of tier [K], for every tier from 0 to 10. *)
Theorem WeiToString_unit_by_magnitude (amount K : Z) :
  0 <= K <= 10 ->
  10 ^ (3 * K) <= amount < 10 ^ (3 * (K + 1)) ->
  exists outputValue label,
    WeiToString_layout amount false
    = (fst (WeiToString amount false), outputValue, K) /\
    metricUnits_at K = Ok label /\
    format amount false = Ok (outputValue ++ " " ++ label).
Proof.
  intros HK [Hlow Hhigh].
  assert (Ha : 1 <= amount).
  { assert (0 < 10 ^ (3 * K)) by (apply Z.pow_pos_nonneg; lia). lia. }
  destruct (WeiToString_tier_magnitude amount false Ha)
    as (D & HD & Htier & Hmag).
  rewrite andb_false_r in Htier.
  assert (HDK : D = K).
  { pose proof (proj2 (Hmag K ltac:(lia)) Hhigh) as Hle.
    destruct (Z.eq_dec K 0) as [->|HK0]; [lia|].
    destruct (Z_le_gt_dec D (K - 1)) as [Hsmall|]; [|lia].
    apply (Hmag (K - 1) ltac:(lia)) in Hsmall.
    replace (3 * (K - 1 + 1)) with (3 * K) in Hsmall by lia. lia. }
  subst D.
  destruct (metricUnits_at_in_range K HK) as [label Hlab].
  unfold format, WeiToString.
  destruct (WeiToString_layout amount false) as [[input' outputValue] tier].
  cbn [snd fst] in *; subst tier.
  exists outputValue, label.
  rewrite Hlab; repeat split; reflexivity.
Qed.

Lemma WeiToString_unit_by_magnitude_witness :
  exists outputValue label,
    WeiToString_layout 1234567 false
    = (fst (WeiToString 1234567 false), outputValue, 2) /\
    metricUnits_at 2 = Ok label /\
    format 1234567 false = Ok (outputValue ++ " " ++ label).
Proof. apply (WeiToString_unit_by_magnitude 1234567 2); lia. Defined.

(** X10. What [WeiToString] leaves in the big integer it was given: the
    amount with its factors of 1000 divided out, as many as step 1 counted;
    what is left is no multiple of 1000 from 1000 on, and a second call,
    in either mode, leaves it as it is. *)
Theorem WeiToString_leaves_reduced (amount : Z) (standard again : bool) :
  let left := fst (WeiToString amount standard) in
  exists tiers,
    0 <= tiers /\
    amount = left * 1000 ^ tiers /\
    (1000 <= left -> left mod 1000 <> 0) /\
    fst (WeiToString left again) = left.
Proof.
  cbv zeta.
  rewrite WeiToString_input_after.
  destruct (step_down_done (Z.to_nat (Z.log2 amount)) amount 0)
    as (reduced & tiers & Hstep & Htiers & Hval & Hstop).
  { rewrite Z2Nat.id by apply Z.log2_nonneg; lia. }
  rewrite Hstep; cbn [fst].
  exists tiers; split; [exact Htiers|split; [exact Hval|split]].
  - unfold thousand, zero in Hstop.
    intros Hge Hmod.
    rewrite Hmod, Z.geb_leb in Hstop; cbn [Z.eqb] in Hstop.
    rewrite andb_true_r in Hstop; apply Z.leb_gt in Hstop. lia.
  - apply WeiToString_input_kept. exact Hstop.
Qed.

(** X11. Whenever formatting a non-negative amount without the standard
    restriction yields a string whose first digit after the decimal point,
    if it has one, is not 0, parsing that string gives the amount back. *)
Theorem roundtrip_unless_fraction_starts_with_zero (amount : Z) (s : string) :
  0 <= amount ->
  format amount false = Ok s ->
  fraction_starts_with_zero s = false ->
  StringToWei s = Ok amount /\ roundtrip amount = Ok amount.
Proof.
  intros Ha Hfmt Hfrac.
  pose proof (roundtrip_plain_fraction amount s Ha Hfmt Hfrac) as Hp.
  split; [exact Hp|].
  unfold roundtrip; rewrite Hfmt; exact Hp.
Qed.

Lemma roundtrip_unless_fraction_starts_with_zero_witness :
  StringToWei "1.5 Ether" = Ok 1500000000000000000 /\
  roundtrip 1500000000000000000 = Ok 1500000000000000000.
Proof.
  apply (roundtrip_unless_fraction_starts_with_zero
           1500000000000000000 "1.5 Ether"); [lia|reflexivity|reflexivity].
Defined.

(** X12. In standard mode a whole number [m] below a thousand of Ether,
    Kiloether or any higher tier is shown in Ether, [m] followed by three
    zeros per tier above Ether, also beyond the last unit label; parsing
    that string gives the amount back. *)
Theorem WeiToString_standard_whole_ether (m p : Z) :
  1 <= m < 1000 -> 6 <= p ->
  let shown := big.Text10 m ++ strings.Repeat_nat "000" (Z.to_nat (p - 6)) in
  format (m * 1000 ^ p) true = Ok (shown ++ " Ether") /\
  StringToWei (shown ++ " Ether") = Ok (m * 1000 ^ p).
Proof.
  intros Hm Hp shown.
  pose proof (Text10_short m ltac:(lia)) as Hlen.
  destruct (Text10_spec m ltac:(lia)) as (Hdig & Hval & _).
  set (ds := big.Text10 m) in *.
  set (n := Z.to_nat (p - 6)) in *.
  assert (Hshown_dig : all_digits shown = true).
  { unfold shown. now rewrite all_digits_append, Hdig, all_digits_zeros. }
  assert (Hshown_len : strings.len shown = strings.len ds + 3 * Z.of_nat n).
  { unfold shown, strings.len. rewrite length_append.
    pose proof (len_zeros n) as Hz; unfold strings.len in Hz. lia. }
  split.
  - unfold format, WeiToString.
    rewrite WeiToString_layout_value, (step_down_clean_log2 m p Hm ltac:(lia)).
    unfold place_decimal; fold ds.
    set (L := strings.len ds) in *.
    assert (H3 : (L >? 3) = false) by (rewrite Z.gtb_ltb; apply Z.ltb_ge; lia).
    assert (Hp3 : (p >? 3) = true) by (rewrite Z.gtb_ltb; apply Z.ltb_lt; lia).
    rewrite H3, Hp3; cbn [andb].
    replace (Z.to_nat (6 - p)) with 0%nat by lia.
    cbn [shift_up].
    rewrite shift_down_eq; fold n; fold shown.
    rewrite Hshown_len.
    assert (H0 : (L + 3 * Z.of_nat n <=? 0) = false) by (apply Z.leb_gt; lia).
    rewrite H0, Z.ltb_irrefl.
    rewrite (all_digits_Contains _ "." Hshown_dig eq_refl).
    cbn [snd].
    replace (p - Z.of_nat n) with 6 by lia.
    reflexivity.
  - assert (Hne : shown <> EmptyString).
    { intro H; rewrite H in Hshown_len.
      change (strings.len EmptyString) with 0 in Hshown_len. lia. }
    pose proof (parse_integer_unit shown "Ether" (10 ^ 18) Hshown_dig Hne
                  eq_refl eq_refl ltac:(lia)) as Hparse.
    unfold parse in Hparse.
    transitivity (@Ok Z (scan_val 0 shown * 10 ^ 18)); [exact Hparse|f_equal].
    unfold shown.
    rewrite scan_val_append, scan_val_shift, len_zeros, scan_val_zeros, Hval.
    rewrite (pow_1000 p ltac:(lia)).
    replace (3 * p) with (3 * Z.of_nat n + 18) by lia.
    rewrite Z.pow_add_r by lia. ring.
Qed.

Lemma WeiToString_standard_whole_ether_witness :
  format (5 * 1000 ^ 12) true = Ok "5000000000000000000 Ether" /\
  StringToWei "5000000000000000000 Ether" = Ok (5 * 1000 ^ 12).
Proof. apply (WeiToString_standard_whole_ether 5 12); lia. Defined.

(** * Properties of the [ens] package *)

(** ** Name hashes *)

Lemma firstn_snoc (A : Type) (l : list A) (i : nat) (d : A) :
  (i < List.length l)%nat -> firstn (S i) l = (firstn i l ++ [nth i l d])%list.
Proof.
  revert i; induction l as [|a l IH]; intros i Hi; [cbn in Hi; lia|].
  destruct i as [|i]; [reflexivity|].
  cbn [List.length] in Hi.
  change (firstn (S (S i)) (a :: l)) with (a :: firstn (S i) l).
  rewrite (IH i) by lia. reflexivity.
Qed.

Section namehash_properties.

Variable Keccak256 : string -> string.

(** The loop of [EnsNameHash] hashes the labels from the last to the
    first. *)
Lemma EnsNameHash_loop_fold (parts : list string) (hash : string) :
  ens.EnsNameHash_loop Keccak256 parts (List.length parts) hash
  = fold_right (fun part acc => ens.nameHashPart Keccak256 acc part) hash parts.
Proof.
  assert (H : forall n h, (n <= List.length parts)%nat ->
                ens.EnsNameHash_loop Keccak256 parts n h
                = fold_right
                    (fun part acc => ens.nameHashPart Keccak256 acc part)
                    h (firstn n parts)).
  { induction n as [|i IH]; intros h Hn; [reflexivity|].
    cbn [ens.EnsNameHash_loop].
    rewrite IH by lia.
    rewrite (firstn_snoc _ parts i EmptyString) by lia.
    now rewrite fold_right_app. }
  rewrite H by lia. now rewrite firstn_all.
Qed.

Lemma EnsNameHash_not_empty (name : string) :
  name <> EmptyString ->
  ens.EnsNameHash Keccak256 name
  = fold_right (fun part acc => ens.nameHashPart Keccak256 acc part)
               ens.zeroHash (strings.Split name ".").
Proof.
  intro Hne; unfold ens.EnsNameHash.
  apply String.eqb_neq in Hne; rewrite Hne; cbn [negb].
  apply EnsNameHash_loop_fold.
Qed.

(** X13. The hash of a name is built from the hash of its parent: for a
    label without a dot (the empty label included) and a non-empty rest,
    the hash of [label.rest] is [nameHashPart] of the hash of [rest] and
    the label, that is the digest of that hash followed by the digest of
    the label. *)
Theorem EnsNameHash_subdomain (label rest : string) :
  strings.Contains label "." = false ->
  rest <> EmptyString ->
  ens.EnsNameHash Keccak256 (label ++ "." ++ rest)
  = ens.nameHashPart Keccak256 (ens.EnsNameHash Keccak256 rest) label /\
  ens.EnsNameHash Keccak256 (label ++ "." ++ rest)
  = Keccak256 (ens.EnsNameHash Keccak256 rest ++ Keccak256 label).
Proof.
  intros Hlabel Hrest.
  assert (H : ens.EnsNameHash Keccak256 (label ++ "." ++ rest)
              = ens.nameHashPart Keccak256 (ens.EnsNameHash Keccak256 rest) label).
  { change ("." ++ rest) with (String "." rest).
    rewrite EnsNameHash_not_empty
      by (apply String.eqb_neq, append_not_empty).
    rewrite (Split_at_sep _ _ _ Hlabel); cbn [fold_right].
    now rewrite <- (EnsNameHash_not_empty rest Hrest). }
  split; [exact H|rewrite H; reflexivity].
Qed.

(** X14. The ends of the recursion: the empty name has the zero hash; a
    single label is hashed onto the zero hash; and a dot at the end is not
    dropped but adds an empty label at the root, so that [label.] is hashed
    onto the hash of the empty label, not onto the zero hash. *)
Theorem EnsNameHash_root :
  ens.EnsNameHash Keccak256 EmptyString = ens.zeroHash /\
  strings.len ens.zeroHash = 32 /\
  (forall label,
      strings.Contains label "." = false -> label <> EmptyString ->
      ens.EnsNameHash Keccak256 label
      = ens.nameHashPart Keccak256 ens.zeroHash label) /\
  (forall label,
      strings.Contains label "." = false ->
      ens.EnsNameHash Keccak256 (label ++ ".")
      = ens.nameHashPart Keccak256
          (ens.nameHashPart Keccak256 ens.zeroHash EmptyString) label).
Proof.
  split; [reflexivity|split; [reflexivity|split]].
  - intros label Hlabel Hne.
    rewrite (EnsNameHash_not_empty label Hne), (Split_no_sep _ _ Hlabel).
    reflexivity.
  - intros label Hlabel.
    change "."%string with (String "." EmptyString).
    rewrite EnsNameHash_not_empty
      by (apply String.eqb_neq, append_not_empty).
    rewrite (Split_at_sep _ _ _ Hlabel).
    reflexivity.
Qed.

End namehash_properties.

Lemma EnsNameHash_subdomain_witness :
  ens.EnsNameHash (fun s => s) "foo.eth"
  = ens.nameHashPart (fun s => s) (ens.EnsNameHash (fun s => s) "eth") "foo".
Proof.
  apply (EnsNameHash_subdomain (fun s => s) "foo" "eth");
    [reflexivity|discriminate].
Defined.

Lemma EnsNameHash_root_witness :
  ens.EnsNameHash (fun s => s) "eth"
  = ens.nameHashPart (fun s => s) ens.zeroHash "eth" /\
  ens.EnsNameHash (fun s => s) "eth."
  = ens.nameHashPart (fun s => s)
      (ens.nameHashPart (fun s => s) ens.zeroHash EmptyString) "eth".
Proof.
  destruct (EnsNameHash_root (fun s => s)) as (_ & _ & Hone & Hdot).
  split.
  - apply (Hone "eth"); [reflexivity|discriminate].
  - apply (Hdot "eth"); reflexivity.
Defined.

(** ** Sealed bids *)

Lemma be_val_append (val : Z) (s t : string) :
  be_val val (s ++ t) = be_val (be_val val s) t.
Proof.
  revert val; induction s as [|c s IH]; intro val; cbn; [reflexivity|apply IH].
Qed.

Lemma be_val_zero_bytes (n : nat) (s : string) :
  be_val 0 (ens.zero_bytes n ++ s) = be_val 0 s.
Proof.
  induction n as [|n IH]; [reflexivity|exact IH].
Qed.

Lemma len_zero_bytes (n : nat) : strings.len (ens.zero_bytes n) = Z.of_nat n.
Proof.
  unfold strings.len.
  induction n as [|n IH]; [reflexivity|].
  change (ens.zero_bytes (S n)) with (String Ascii.zero (ens.zero_bytes n)).
  cbn [String.length]. lia.
Qed.

Lemma zero_bytes_prefix (k n : nat) :
  (k <= n)%nat -> substring 0 k (ens.zero_bytes n) = ens.zero_bytes k.
Proof.
  revert n; induction k as [|k IH]; intros n Hk.
  - destruct n; reflexivity.
  - destruct n as [|n]; [lia|].
    change (ens.zero_bytes (S n)) with (String Ascii.zero (ens.zero_bytes n)).
    cbn [substring]. rewrite IH by lia. reflexivity.
Qed.

Lemma Bytes_loop_S (fuel : nat) (n : Z) (acc : string) :
  Bytes_loop (S fuel) n acc
  = if n =? 0 then acc
    else Bytes_loop fuel (n / 256)
                    (String (ascii_of_nat (Z.to_nat (n mod 256))) acc).
Proof. reflexivity. Qed.

Lemma Bytes_loop_acc (fuel : nat) (n : Z) (acc : string) :
  Bytes_loop fuel n acc = Bytes_loop fuel n EmptyString ++ acc.
Proof.
  revert n acc.
  induction fuel as [|fuel IH]; intros n acc; [reflexivity|].
  rewrite !Bytes_loop_S.
  destruct (n =? 0); [reflexivity|].
  rewrite IH, (IH _ (String _ EmptyString)), append_assoc.
  reflexivity.
Qed.

(** With enough fuel [Bytes_loop] writes the base-256 numeral of [n],
    without a leading zero byte. *)
Lemma Bytes_loop_spec (fuel : nat) (n : Z) :
  0 <= n < 2 ^ Z.of_nat fuel ->
  let bs := Bytes_loop fuel n EmptyString in
  be_val 0 bs = n /\
  n < 256 ^ strings.len bs /\
  (1 <= n -> 256 ^ (strings.len bs - 1) <= n).
Proof.
  revert n.
  induction fuel as [|fuel IH]; intros n Hn; cbv zeta.
  - change (2 ^ Z.of_nat 0) with 1 in Hn.
    assert (n = 0) by lia; subst n.
    cbn; repeat split; lia.
  - rewrite Bytes_loop_S.
    destruct (n =? 0) eqn:E0; [apply Z.eqb_eq in E0|apply Z.eqb_neq in E0].
    + subst n; cbn; repeat split; lia.
    + assert (Hq : 0 <= n / 256 < 2 ^ Z.of_nat fuel).
      { rewrite Nat2Z.inj_succ, Z.pow_succ_r in Hn by lia.
        Z.div_mod_to_equations; lia. }
      destruct (IH _ Hq) as (IH1 & IH2 & IH3).
      rewrite Bytes_loop_acc.
      set (bs := Bytes_loop fuel (n / 256) EmptyString) in *.
      assert (Hbyte : Z.of_nat (nat_of_ascii (ascii_of_nat (Z.to_nat (n mod 256))))
                      = n mod 256).
      { rewrite nat_ascii_embedding; Z.div_mod_to_equations; lia. }
      assert (Hlen : strings.len (bs ++ String (ascii_of_nat (Z.to_nat (n mod 256)))
                                           EmptyString)
                     = strings.len bs + 1).
      { unfold strings.len; rewrite length_append; cbn [String.length]; lia. }
      assert (Hpos : 0 <= strings.len bs) by (unfold strings.len; lia).
      rewrite Hlen, be_val_append, IH1.
      cbn [be_val]; rewrite Hbyte.
      split; [Z.div_mod_to_equations; lia|split].
      * rewrite Z.pow_add_r, Z.pow_1_r by lia.
        Z.div_mod_to_equations; lia.
      * intros _.
        replace (strings.len bs + 1 - 1) with (strings.len bs) by lia.
        destruct (Z.eq_dec (n / 256) 0) as [Hz|Hnz].
        -- rewrite Hz in IH2.
           assert (Hbs : strings.len bs = 0).
           { destruct (Z.eq_dec (strings.len bs) 0) as [|Hne]; [assumption|].
             exfalso.
             unfold bs in *; rewrite Hz in *.
             destruct fuel; cbn in Hne; lia. }
           rewrite Hbs; change (256 ^ 0) with 1; lia.
        -- specialize (IH3 ltac:(lia)).
           replace (strings.len bs) with (Z.succ (strings.len bs - 1)) by lia.
           rewrite Z.pow_succ_r.
           ++ Z.div_mod_to_equations; lia.
           ++ destruct (Z.eq_dec (strings.len bs) 0) as [Hbs|]; [|lia].
              exfalso. rewrite Hbs in IH2. change (256 ^ 0) with 1 in IH2. lia.
Qed.

Lemma Int_Bytes_spec (x : Z) :
  be_val 0 (Int_Bytes x) = Z.abs x /\
  Z.abs x < 256 ^ strings.len (Int_Bytes x) /\
  (1 <= Z.abs x -> 256 ^ (strings.len (Int_Bytes x) - 1) <= Z.abs x).
Proof.
  unfold Int_Bytes.
  apply Bytes_loop_spec.
  split; [apply Z.abs_nonneg|].
  rewrite Nat2Z.inj_succ, Z2Nat.id by apply Z.log2_nonneg.
  destruct (Z.eq_dec (Z.abs x) 0) as [->|Hnz]; [reflexivity|].
  apply Z.log2_spec. pose proof (Z.abs_nonneg x). lia.
Qed.

Lemma amountBytes_spec (amount : Z) :
  (Z.abs amount < 2 ^ 256 ->
   exists bytes,
     ens.amountBytes amount = Ok bytes /\
     strings.len bytes = 32 /\
     be_val 0 bytes = Z.abs amount) /\
  (2 ^ 256 <= Z.abs amount -> ens.amountBytes amount = Panic).
Proof.
  destruct (Int_Bytes_spec amount) as (Hval & Hhigh & Hlow).
  unfold ens.amountBytes.
  set (bs := Int_Bytes amount) in *.
  assert (Hpos : 0 <= strings.len bs) by (unfold strings.len; lia).
  change (2 ^ 256) with (256 ^ 32).
  split; intro H.
  - assert (Hlen : strings.len bs <= 32).
    { destruct (Z_le_gt_dec (strings.len bs) 32) as [|Hgt]; [assumption|].
      exfalso.
      destruct (Z.eq_dec (Z.abs amount) 0) as [Hz|Hnz].
      - unfold bs, Int_Bytes in Hgt; rewrite Hz in Hgt. cbn in Hgt. lia.
      - pose proof (Z.abs_nonneg amount).
        specialize (Hlow ltac:(lia)).
        assert (256 ^ 32 <= 256 ^ (strings.len bs - 1))
          by (apply Z.pow_le_mono_r; lia).
        lia. }
    destruct (32 - strings.len bs <? 0) eqn:E; [apply Z.ltb_lt in E; lia|].
    eexists; split; [reflexivity|].
    unfold strings.slice_to.
    rewrite zero_bytes_prefix by lia.
    split.
    + unfold strings.len in *; rewrite length_append.
      pose proof (len_zero_bytes (Z.to_nat (32 - Z.of_nat (String.length bs))))
        as Hz.
      unfold strings.len in Hz. lia.
    + now rewrite be_val_zero_bytes.
  - destruct (32 - strings.len bs <? 0) eqn:E; [reflexivity|].
    apply Z.ltb_ge in E.
    assert (256 ^ strings.len bs <= 256 ^ 32) by (apply Z.pow_le_mono_r; lia).
    lia.
Qed.

(** X15. The amount of a bid is written as exactly 32 bytes, the absolute
    value in big-endian order behind zero bytes, for every amount of
    absolute value below 2^256; from 2^256 on the slice bound is negative
    and the function panics. *)
Theorem amountBytes_encoding (amount : Z) :
  (Z.abs amount < 2 ^ 256 ->
   exists bytes,
     ens.amountBytes amount = Ok bytes /\
     strings.len bytes = 32 /\
     be_val 0 bytes = Z.abs amount) /\
  (2 ^ 256 <= Z.abs amount -> ens.amountBytes amount = Panic).
Proof. exact (amountBytes_spec amount). Qed.

Lemma amountBytes_encoding_witness :
  exists bytes,
    ens.amountBytes 1000 = Ok bytes /\
    strings.len bytes = 32 /\
    be_val 0 bytes = Z.abs 1000.
Proof.
  apply (proj1 (amountBytes_encoding 1000)). reflexivity.
Defined.

Lemma Int_Bytes_opp (x : Z) : Int_Bytes (- x) = Int_Bytes x.
Proof. unfold Int_Bytes. now rewrite Z.abs_opp. Qed.

Section SealBid_properties.

Variable Keccak256 : string -> string.
Variable Domain : string -> reply string.
Variable LabelHash : string -> string.

(** X16. [SealBid]: a name [Domain] refuses gives the error "invalid name"
    whatever the amount; otherwise the seal is the digest of the label
    hash, the owner, the 32 bytes of the amount and the digest of the salt,
    for every amount of absolute value below 2^256, and a panic beyond.
    The sign of the amount is not part of the seal: an amount and its
    negation are sealed alike. *)
Theorem SealBid_result (name owner : string) (amount : Z) (salt : string) :
  (forall e, Domain name = Fault e ->
             ens.SealBid Keccak256 Domain LabelHash name owner amount salt
             = Err "invalid name") /\
  (forall domain,
      Domain name = Reply domain -> Z.abs amount < 2 ^ 256 ->
      exists bytes,
        strings.len bytes = 32 /\ be_val 0 bytes = Z.abs amount /\
        ens.SealBid Keccak256 Domain LabelHash name owner amount salt
        = Ok (Keccak256 (LabelHash domain ++ owner ++ bytes ++ Keccak256 salt))) /\
  (forall domain,
      Domain name = Reply domain -> 2 ^ 256 <= Z.abs amount ->
      ens.SealBid Keccak256 Domain LabelHash name owner amount salt = Panic) /\
  ens.SealBid Keccak256 Domain LabelHash name owner (- amount) salt
  = ens.SealBid Keccak256 Domain LabelHash name owner amount salt.
Proof.
  unfold ens.SealBid.
  split; [|split; [|split]].
  - intros e ->. reflexivity.
  - intros domain -> Hsmall.
    destruct (proj1 (amountBytes_spec amount) Hsmall)
      as (bytes & Hbytes & Hlen & Hval).
    exists bytes; rewrite Hbytes; repeat split; assumption.
  - intros domain -> Hbig.
    now rewrite (proj2 (amountBytes_spec amount) Hbig).
  - unfold ens.amountBytes. now rewrite Int_Bytes_opp.
Qed.

End SealBid_properties.

Lemma SealBid_result_witness :
  ens.SealBid (fun s => s) (fun n => Fault "no dot") (fun s => s)
              "name" "owner" 5 "salt" = Err "invalid name" /\
  exists bytes,
    strings.len bytes = 32 /\ be_val 0 bytes = Z.abs (-5) /\
    ens.SealBid (fun s => s) (fun n => Reply n) (fun s => s)
                "name" "owner" (-5) "salt"
    = Ok ("name" ++ "owner" ++ bytes ++ "salt").
Proof.
  split.
  - apply (proj1 (SealBid_result (fun s => s) (fun n => Fault "no dot")
                                 (fun s => s) "name" "owner" 5 "salt")
                 "no dot").
    reflexivity.
  - apply (proj1 (proj2 (SealBid_result (fun s => s) (fun n => Reply n)
                                        (fun s => s) "name" "owner" (-5) "salt"))
                 "name"); reflexivity.
Defined.

(** ** The registrar *)

Section registrar_properties.

Variable Domain : string -> reply string.
Variable LabelHash : string -> string.
Variable NameHash : string -> string.
Variable UnknownAddress : string.
Variable Entries : string -> ens.entries.
Variable registry : Type.
Variable RegistryContractFromRegistrar : reply registry.
Variable Owner : registry -> string -> reply string.

Local Abbreviation Entry :=
  (ens.Entry Domain LabelHash NameHash UnknownAddress Entries registry
             RegistryContractFromRegistrar Owner).
Local Abbreviation State :=
  (ens.State Domain LabelHash NameHash UnknownAddress Entries registry
             RegistryContractFromRegistrar Owner).
Local Abbreviation NameInState :=
  (ens.NameInState Domain LabelHash NameHash UnknownAddress Entries registry
                   RegistryContractFromRegistrar Owner).

Ltac split_status :=
  repeat match goal with
         | |- context [?a =? ?b] =>
             destruct (Z.eqb_spec a b)
         end.

(** X17. [Entry] names a state exactly when it returns no error: without
    an error the state is one of the eight state names, with an error it
    is empty; and the state is "Unknown" exactly for a status outside
    0 to 5. *)
Theorem Entry_states (name : string) :
  (ens.err (Entry name) = None ->
   In (ens.state (Entry name))
      ["Available"; "Bidding"; "Won"; "Owned"; "Forbidden"; "Revealing";
       "Unavailable"; "Unknown"]) /\
  (ens.err (Entry name) <> None -> ens.state (Entry name) = EmptyString) /\
  (forall domain,
      Domain name = Reply domain ->
      ens.e_err (Entries (LabelHash domain)) = None ->
      (ens.state (Entry name) = "Unknown" <->
       ~ 0 <= ens.e_status (Entries (LabelHash domain)) <= 5)).
Proof.
  unfold ens.Entry.
  split; [|split].
  - destruct (Domain name) as [domain|?]; [|discriminate].
    destruct (ens.e_err (Entries (LabelHash domain))); [discriminate|].
    split_status; cbn; try tauto.
    destruct RegistryContractFromRegistrar as [reg|?]; [|discriminate].
    destruct (Owner reg (NameHash name)) as [owner|?]; [|discriminate].
    destruct (owner =? UnknownAddress)%string; cbn; tauto.
  - destruct (Domain name) as [domain|?]; [|reflexivity].
    destruct (ens.e_err (Entries (LabelHash domain))); [reflexivity|].
    split_status; cbn; try congruence.
    destruct RegistryContractFromRegistrar as [reg|?]; [|reflexivity].
    destruct (Owner reg (NameHash name)) as [owner|?]; [|reflexivity].
    destruct (owner =? UnknownAddress)%string; cbn; congruence.
  - intros domain -> ->.
    split_status; cbn; try (split; [discriminate|lia]).
    + destruct RegistryContractFromRegistrar as [reg|?];
        [|split; [discriminate|lia]].
      destruct (Owner reg (NameHash name)) as [owner|?];
        [|split; [discriminate|lia]].
      destruct (owner =? UnknownAddress)%string; cbn;
        (split; [discriminate|lia]).
    + split; [lia|reflexivity].
Qed.

(** X18. The states "Owned" and "Won" come from the registry alone:
    [State] reports "Owned", with no error, exactly when the name is a
    valid one, its entry has status 2 and the registry gives it an owner
    other than the unknown address; it reports "Won" exactly when that
    owner is the unknown address. *)
Theorem State_owned_or_won (name : string) :
  let registered (owned : bool) :=
    exists domain reg owner,
      Domain name = Reply domain /\
      ens.e_err (Entries (LabelHash domain)) = None /\
      ens.e_status (Entries (LabelHash domain)) = 2 /\
      RegistryContractFromRegistrar = Reply reg /\
      Owner reg (NameHash name) = Reply owner /\
      (owner =? UnknownAddress)%string = negb owned in
  (State name = ("Owned", None) <-> registered true) /\
  (State name = ("Won", None) <-> registered false).
Proof.
  cbv zeta; unfold ens.State, ens.Entry.
  split; split.
  1, 3: destruct (Domain name) as [domain|?]; [|discriminate];
        destruct (ens.e_err (Entries (LabelHash domain))) eqn:Herr;
          [discriminate|];
        split_status; cbn; try discriminate;
        destruct RegistryContractFromRegistrar as [reg|?]; [|discriminate];
        destruct (Owner reg (NameHash name)) as [owner|?] eqn:Ho;
          [|discriminate];
        destruct (owner =? UnknownAddress)%string eqn:Eo; cbn;
          try discriminate;
        intros _; exists domain, reg, owner; repeat split; assumption.
  1, 2: intros (domain & reg & owner & -> & -> & -> & -> & -> & ->);
        reflexivity.
Qed.

(** X19. [NameInState] answers true exactly when it returns no error, and
    exactly when [State] reports the desired state without an error: it
    never answers false without an error, nor true with one. *)
Theorem NameInState_agrees_with_error (name desiredState : string) :
  (fst (NameInState name desiredState) = true
   <-> snd (NameInState name desiredState) = None) /\
  (fst (NameInState name desiredState) = true
   <-> State name = (desiredState, None)).
Proof.
  unfold ens.NameInState.
  destruct (State name) as [state [?|]].
  - cbn; split; split; discriminate.
  - destruct (String.eqb_spec state desiredState) as [->|Hne].
    + cbn; split; split; reflexivity.
    + assert (Hpair : (state, @None string) <> (desiredState, None))
        by congruence.
      repeat match goal with
             | |- context [String.eqb state ?a] => destruct (String.eqb state a)
             end; cbn; (split; split; [discriminate|discriminate
                                       |discriminate|intro; contradiction]).
Qed.

Variable network : Type.
Variable registrarContract : Type.
Variable NetworkID : reply network.
Variable RegistryContract : reply registry.
Variable NewRegistrarContract :
  string -> option registrarContract * option string.

(** X20. [RegistrarContract] does not report a missing registrar: once the
    network, the registry and the owner of "eth" have been obtained, the
    result is what binding the registrar contract at that owner's address
    returns, whether or not the address is the unknown address; the two
    results are the same for every choice of the unknown address. *)
Theorem RegistrarContract_ignores_unknown_address :
  (forall n reg address,
      NetworkID = Reply n -> RegistryContract = Reply reg ->
      Owner reg (NameHash "eth") = Reply address ->
      ens.RegistrarContract NameHash UnknownAddress registry Owner network
                            registrarContract NetworkID RegistryContract
                            NewRegistrarContract
      = NewRegistrarContract address) /\
  (forall other : string,
      ens.RegistrarContract NameHash UnknownAddress registry Owner network
                            registrarContract NetworkID RegistryContract
                            NewRegistrarContract
      = ens.RegistrarContract NameHash other registry Owner network
                              registrarContract NetworkID RegistryContract
                              NewRegistrarContract).
Proof.
  unfold ens.RegistrarContract; split.
  - intros n reg address -> -> ->.
    now destruct (NewRegistrarContract address).
  - intro other.
    destruct NetworkID; [|reflexivity].
    destruct RegistryContract as [reg|]; [|reflexivity].
    destruct (Owner reg (NameHash "eth")); reflexivity.
Qed.

End registrar_properties.

Lemma State_owned_or_won_witness :
  ens.State (fun n => Reply n) (fun s => s) (fun s => s) "unknown"
            (fun _ => ens.mkEntries 2 "deed" 0 None None None)
            unit (Reply tt) (fun _ _ => Reply "owner") "name.eth"
  = ("Owned", None).
Proof.
  apply (proj1 (State_owned_or_won
                  (fun n => Reply n) (fun s => s) (fun s => s) "unknown"
                  (fun _ => ens.mkEntries 2 "deed" 0 None None None)
                  unit (Reply tt) (fun _ _ => Reply "owner") "name.eth")).
  exists "name.eth", tt, "owner". repeat split; reflexivity.
Defined.

Lemma Entry_states_witness :
  In (ens.state
        (ens.Entry (fun n => Reply n) (fun s => s) (fun s => s) "unknown"
                   (fun _ => ens.mkEntries 4 "deed" 0 None None None)
                   unit (Reply tt) (fun _ _ => Reply "owner") "name.eth"))
     ["Available"; "Bidding"; "Won"; "Owned"; "Forbidden"; "Revealing";
      "Unavailable"; "Unknown"].
Proof.
  apply (proj1 (Entry_states
                  (fun n => Reply n) (fun s => s) (fun s => s) "unknown"
                  (fun _ => ens.mkEntries 4 "deed" 0 None None None)
                  unit (Reply tt) (fun _ _ => Reply "owner") "name.eth")).
  reflexivity.
Defined.

Lemma RegistrarContract_ignores_unknown_address_witness :
  ens.RegistrarContract (fun s => s) "unknown" unit (fun _ _ => Reply "unknown")
                        unit unit (Reply tt) (Reply tt)
                        (fun a => (Some tt, None))
  = (Some tt, None).
Proof.
  apply (proj1 (RegistrarContract_ignores_unknown_address
                  (fun s => s) "unknown" unit (fun _ _ => Reply "unknown")
                  unit unit (Reply tt) (Reply tt)
                  (fun a => (Some tt, None))) tt tt "unknown");
    reflexivity.
Defined.

(** ** The resolver *)

Section resolver_properties.

Variable NameHash : string -> string.
Variable enscontract : Type.
Variable resolvercontract : Type.
Variable NewEnscontract : reply enscontract.
Variable Owner : enscontract -> string -> reply string.
Variable Resolver : enscontract -> string -> reply string.
Variable NewResolvercontract : string -> reply resolvercontract.
Variable Addr : resolvercontract -> string -> reply string.

Local Abbreviation Resolve :=
  (ens.Resolve NameHash enscontract resolvercontract NewEnscontract Owner
               Resolver NewResolvercontract Addr).

(** X21. [Resolve] returns either an error with the zero address or an
    address other than the zero address with no error.  It returns the
    address [a] exactly when the hash of the name is not the zero hash, the
    ENS contract gives the name an owner and a resolver that are not the
    zero address, and that resolver gives the name the address [a], itself
    not the zero address; a name whose hash is the zero hash is a "Bad
    name" whatever the contracts say. *)
Theorem Resolve_result (name : string) :
  (snd (Resolve name) = None -> fst (Resolve name) <> ens.zeroAddress) /\
  (snd (Resolve name) <> None -> fst (Resolve name) = ens.zeroAddress) /\
  (forall a,
      Resolve name = (a, None) <->
      NameHash name <> ens.zeroHash /\
      a <> ens.zeroAddress /\
      exists ens owner resolverAddress resolver,
        NewEnscontract = Reply ens /\
        Owner ens (NameHash name) = Reply owner /\
        owner <> ens.zeroAddress /\
        Resolver ens (NameHash name) = Reply resolverAddress /\
        resolverAddress <> ens.zeroAddress /\
        NewResolvercontract resolverAddress = Reply resolver /\
        Addr resolver (NameHash name) = Reply a) /\
  (NameHash name = ens.zeroHash ->
   Resolve name = (ens.zeroAddress, Some "Bad name")).
Proof.
  unfold ens.Resolve, ens.resolveHash.
  set (h := NameHash name).
  split; [|split; [|split]].
  - destruct (String.eqb_spec h ens.zeroHash); [discriminate|].
    destruct NewEnscontract as [ens|]; [|discriminate].
    destruct (Owner ens h) as [owner|]; [|discriminate].
    destruct (String.eqb_spec owner ens.zeroAddress); [discriminate|].
    destruct (Resolver ens h) as [ra|]; [|discriminate].
    destruct (String.eqb_spec ra ens.zeroAddress); [discriminate|].
    destruct (NewResolvercontract ra) as [r|]; [|discriminate].
    destruct (Addr r h) as [a|]; [|discriminate].
    destruct (String.eqb_spec a ens.zeroAddress); [discriminate|].
    intros _; assumption.
  - destruct (String.eqb_spec h ens.zeroHash); [reflexivity|].
    destruct NewEnscontract as [ens|]; [|reflexivity].
    destruct (Owner ens h) as [owner|]; [|reflexivity].
    destruct (String.eqb_spec owner ens.zeroAddress); [reflexivity|].
    destruct (Resolver ens h) as [ra|]; [|reflexivity].
    destruct (String.eqb_spec ra ens.zeroAddress); [reflexivity|].
    destruct (NewResolvercontract ra) as [r|]; [|reflexivity].
    destruct (Addr r h) as [a|]; [|reflexivity].
    destruct (String.eqb_spec a ens.zeroAddress); [reflexivity|].
    cbn; congruence.
  - intro a; split.
    + destruct (String.eqb_spec h ens.zeroHash) as [|Hh]; [discriminate|].
      destruct NewEnscontract as [ens|]; [|discriminate].
      destruct (Owner ens h) as [owner|] eqn:Ho; [|discriminate].
      destruct (String.eqb_spec owner ens.zeroAddress); [discriminate|].
      destruct (Resolver ens h) as [ra|] eqn:Hr; [|discriminate].
      destruct (String.eqb_spec ra ens.zeroAddress); [discriminate|].
      destruct (NewResolvercontract ra) as [r|] eqn:Hn; [|discriminate].
      destruct (Addr r h) as [a'|] eqn:Ha; [|discriminate].
      destruct (String.eqb_spec a' ens.zeroAddress); [discriminate|].
      intro H; injection H as <-.
      split; [assumption|split; [assumption|]].
      exists ens, owner, ra, r. repeat split; assumption.
    + intros (Hh & Ha & ens & owner & ra & r & -> & -> & Ho & -> & Hr & -> & ->).
      apply String.eqb_neq in Hh, Ha, Ho, Hr.
      now rewrite Hh, Ho, Hr, Ha.
  - intros ->. now rewrite String.eqb_refl.
Qed.

End resolver_properties.

Lemma Resolve_result_witness :
  ens.Resolve (fun s => s) unit unit (Reply tt) (fun _ _ => Reply "owner")
              (fun _ _ => Reply "resolver") (fun _ => Reply tt)
              (fun _ _ => Reply "address") "name.eth"
  = ("address", None) /\
  ens.Resolve (fun _ => ens.zeroHash) unit unit (Reply tt)
              (fun _ _ => Reply "owner") (fun _ _ => Reply "resolver")
              (fun _ => Reply tt) (fun _ _ => Reply "address") "name.eth"
  = (ens.zeroAddress, Some "Bad name").
Proof.
  split.
  - apply (proj1 (proj2 (proj2 (Resolve_result
             (fun s => s) unit unit (Reply tt) (fun _ _ => Reply "owner")
             (fun _ _ => Reply "resolver") (fun _ => Reply tt)
             (fun _ _ => Reply "address") "name.eth")))).
    split; [discriminate|split; [discriminate|]].
    exists tt, "owner", "resolver", tt.
    repeat split; discriminate.
  - apply (proj2 (proj2 (proj2 (Resolve_result
             (fun _ => ens.zeroHash) unit unit (Reply tt)
             (fun _ _ => Reply "owner") (fun _ _ => Reply "resolver")
             (fun _ => Reply tt) (fun _ _ => Reply "address") "name.eth")))).
    reflexivity.
Defined.

Lemma NameInState_agrees_with_error_witness :
  fst (ens.NameInState (fun n => Reply n) (fun s => s) (fun s => s) "unknown"
                       (fun _ => ens.mkEntries 2 "deed" 0 None None None)
                       unit (Reply tt) (fun _ _ => Reply "owner")
                       "name.eth" "Owned") = true.
Proof.
  apply (proj1 (NameInState_agrees_with_error
                  (fun n => Reply n) (fun s => s) (fun s => s) "unknown"
                  (fun _ => ens.mkEntries 2 "deed" 0 None None None)
                  unit (Reply tt) (fun _ _ => Reply "owner")
                  "name.eth" "Owned")).
  reflexivity.
Defined.
